(** * Order-status materialisation pipeline: partition routing and the MERGE reducer

    A shallow embedding of
    - [etl_project/src/partitioner.py]: [default_partitioner] and
      [partition_by_customer_id];
    - the [MERGE] statement of [setup_database.run_merge] (the same statement
      is scheduled by [setup_automation.setup_task]) over the table created by
      [setup_database.setup_dwh].

    Python values are modelled as follows: [bytes] is [list byte], [int] is
    [Z], [str] is the list of its code points, a raised exception is [None].
    SQL values: [NUMBER] is [Z], [STRING] is [string], a nullable column is an
    [option], a table is the list of its rows. *)

From Stdlib Require Import String Ascii.
From Stdlib Require Import ZArith List Bool Lia Permutation.
From Stdlib Require Import Init.Byte.
Import ListNotations.
Local Open Scope Z_scope.

(* ================================================================== *)
(** ** [hashlib.sha256] (FIPS 180-4), on 32-bit words kept in [Z] *)

Module Sha256.

Definition byte_val (b : byte) : Z := Z.of_N (Byte.to_N b).

Definition byte_of_Z (z : Z) : byte :=
  match Byte.of_N (Z.to_N (z mod 256)) with
  | Some b => b
  | None => x00
  end.

Definition wrap32 (x : Z) : Z := x mod 2 ^ 32.
Definition add32 (x y : Z) : Z := wrap32 (x + y).
Definition not32 (x : Z) : Z := Z.lxor x 0xffffffff.
Definition rotr (n x : Z) : Z :=
  wrap32 (Z.lor (Z.shiftr x n) (Z.shiftl x (32 - n))).

Definition Ch (x y z : Z) : Z := Z.lxor (Z.land x y) (Z.land (not32 x) z).
Definition Maj (x y z : Z) : Z :=
  Z.lxor (Z.lxor (Z.land x y) (Z.land x z)) (Z.land y z).
Definition bsig0 (x : Z) : Z := Z.lxor (Z.lxor (rotr 2 x) (rotr 13 x)) (rotr 22 x).
Definition bsig1 (x : Z) : Z := Z.lxor (Z.lxor (rotr 6 x) (rotr 11 x)) (rotr 25 x).
Definition ssig0 (x : Z) : Z := Z.lxor (Z.lxor (rotr 7 x) (rotr 18 x)) (Z.shiftr x 3).
Definition ssig1 (x : Z) : Z := Z.lxor (Z.lxor (rotr 17 x) (rotr 19 x)) (Z.shiftr x 10).

(** The constants are fractional parts of roots of the first primes, 32 bits
    each: cube roots of the first 64 for the round constants, square roots of
    the first 8 for the initial hash value. *)
Definition is_prime (n : Z) : bool :=
  forallb (fun d => negb (n mod Z.of_nat d =? 0)) (seq 2 (Z.to_nat n - 2)).

Definition primes : list Z :=
  filter is_prime (map Z.of_nat (seq 2 310)).

(** The integer cube root of [n], for [n] below [2 ^ 120]. *)
Definition cube_root (n : Z) : Z :=
  fold_left (fun r i => let r' := r + 2 ^ Z.of_nat i in
                        if r' * r' * r' <=? n then r' else r)
            (rev (seq 0 40)) 0.

Definition K : list Z :=
  Eval vm_compute in map (fun p => wrap32 (cube_root (p * 2 ^ 96))) primes.

Definition H0 : list Z :=
  Eval vm_compute in map (fun p => wrap32 (Z.sqrt (p * 2 ^ 64))) (firstn 8 primes).

(** Big-endian conversions. *)
Definition be_value (bs : list Z) : Z :=
  fold_left (fun acc b => acc * 256 + b) bs 0.

Fixpoint be_bytes (n : nat) (x : Z) : list Z :=
  match n with
  | O => []
  | S m => be_bytes m (x / 256) ++ [x mod 256]
  end.

(** Padding: one [0x80], zeros up to 56 modulo 64, the bit length on 8 bytes. *)
Definition pad (msg : list Z) : list Z :=
  let len := Z.of_nat (length msg) in
  let zeros := Z.to_nat ((55 - len) mod 64) in
  msg ++ [0x80] ++ repeat 0 zeros ++ be_bytes 8 (8 * len).

(** The sixteen words of the block at the head of [bs]. *)
Fixpoint words (n : nat) (bs : list Z) : list Z :=
  match n with
  | O => []
  | S m => be_value (firstn 4 bs) :: words m (skipn 4 bs)
  end.

(** Message schedule, most recent word first: [w] holds W(t-1), W(t-2), ... *)
Definition next_word (w : list Z) : Z :=
  add32 (add32 (ssig1 (nth 1 w 0)) (nth 6 w 0))
        (add32 (ssig0 (nth 14 w 0)) (nth 15 w 0)).

Fixpoint extend (n : nat) (w : list Z) : list Z :=
  match n with
  | O => w
  | S m => extend m (next_word w :: w)
  end.

Definition schedule (block : list Z) : list Z :=
  rev (extend 48 (rev block)).

Record regs := Regs { ra : Z; rb : Z; rc : Z; rd : Z; re : Z; rf : Z; rg : Z; rh : Z }.

Definition round (s : regs) (kw : Z * Z) : regs :=
  let t1 := add32 (add32 (add32 (rh s) (bsig1 (re s)))
                         (add32 (Ch (re s) (rf s) (rg s)) (fst kw))) (snd kw) in
  let t2 := add32 (bsig0 (ra s)) (Maj (ra s) (rb s) (rc s)) in
  Regs (add32 t1 t2) (ra s) (rb s) (rc s) (add32 (rd s) t1) (re s) (rf s) (rg s).

Definition regs_of (h : list Z) : regs :=
  Regs (nth 0 h 0) (nth 1 h 0) (nth 2 h 0) (nth 3 h 0)
       (nth 4 h 0) (nth 5 h 0) (nth 6 h 0) (nth 7 h 0).

Definition compress (h : list Z) (block : list Z) : list Z :=
  let s := fold_left round (combine K (schedule block)) (regs_of h) in
  map (fun p => add32 (fst p) (snd p))
      (combine h [ra s; rb s; rc s; rd s; re s; rf s; rg s; rh s]).

Fixpoint blocks (n : nat) (h : list Z) (bs : list Z) : list Z :=
  match n with
  | O => h
  | S m => blocks m (compress h (words 16 bs)) (skipn 64 bs)
  end.

(** [hashlib.sha256(key).digest()] *)
Definition digest (key : list byte) : list byte :=
  let padded := pad (map byte_val key) in
  let h := blocks (length padded / 64) H0 padded in
  map byte_of_Z (flat_map (be_bytes 4) h).

End Sha256.

(* ================================================================== *)
(** ** The Python built-ins the partitioner calls

    As CPython 3.11 has them: Unicode 14.0 for the character classes, and
    the default limit on the length of decimal strings [int] converts. *)

Module Py.

Import Sha256.

(** [bytes.decode("utf-8")], strict: [None] stands for [UnicodeDecodeError].
    Overlong forms, surrogates and values above U+10FFFF are rejected. *)
Definition is_cont (c : Z) : bool := (0x80 <=? c) && (c <=? 0xBF).
Definition between (lo hi c : Z) : bool := (lo <=? c) && (c <=? hi).
Definition low6 (c : Z) : Z := c - 0x80.

Fixpoint decode_utf8 (bs : list byte) : option (list Z) :=
  match bs with
  | [] => Some []
  | b0 :: r0 =>
    let c0 := byte_val b0 in
    if c0 <? 0x80 then option_map (cons c0) (decode_utf8 r0)
    else if between 0xC2 0xDF c0 then
      match r0 with
      | b1 :: r1 =>
        let c1 := byte_val b1 in
        if is_cont c1
        then option_map (cons ((c0 - 0xC0) * 64 + low6 c1)) (decode_utf8 r1)
        else None
      | _ => None
      end
    else if between 0xE0 0xEF c0 then
      match r0 with
      | b1 :: b2 :: r2 =>
        let c1 := byte_val b1 in
        let c2 := byte_val b2 in
        let lo := if c0 =? 0xE0 then 0xA0 else 0x80 in
        let hi := if c0 =? 0xED then 0x9F else 0xBF in
        if between lo hi c1 && is_cont c2
        then option_map (cons (((c0 - 0xE0) * 64 + low6 c1) * 64 + low6 c2))
                        (decode_utf8 r2)
        else None
      | _ => None
      end
    else if between 0xF0 0xF4 c0 then
      match r0 with
      | b1 :: b2 :: b3 :: r3 =>
        let c1 := byte_val b1 in
        let c2 := byte_val b2 in
        let c3 := byte_val b3 in
        let lo := if c0 =? 0xF0 then 0x90 else 0x80 in
        let hi := if c0 =? 0xF4 then 0x8F else 0xBF in
        if between lo hi c1 && is_cont c2 && is_cont c3
        then option_map
               (cons ((((c0 - 0xF0) * 64 + low6 c1) * 64 + low6 c2) * 64 + low6 c3))
               (decode_utf8 r3)
        else None
      | _ => None
      end
    else None
  end.

(** Code points with a decimal value (Unicode 14.0, general category Nd).
    Every range starts at a digit zero and runs through whole decades, so the
    value of [c] in the range starting at [lo] is [(c - lo) mod 10]. *)
Definition decimal_ranges : list (Z * Z) :=
  [ (0x0030, 0x0039); (0x0660, 0x0669); (0x06F0, 0x06F9); (0x07C0, 0x07C9);
    (0x0966, 0x096F); (0x09E6, 0x09EF); (0x0A66, 0x0A6F); (0x0AE6, 0x0AEF);
    (0x0B66, 0x0B6F); (0x0BE6, 0x0BEF); (0x0C66, 0x0C6F); (0x0CE6, 0x0CEF);
    (0x0D66, 0x0D6F); (0x0DE6, 0x0DEF); (0x0E50, 0x0E59); (0x0ED0, 0x0ED9);
    (0x0F20, 0x0F29); (0x1040, 0x1049); (0x1090, 0x1099); (0x17E0, 0x17E9);
    (0x1810, 0x1819); (0x1946, 0x194F); (0x19D0, 0x19D9); (0x1A80, 0x1A89);
    (0x1A90, 0x1A99); (0x1B50, 0x1B59); (0x1BB0, 0x1BB9); (0x1C40, 0x1C49);
    (0x1C50, 0x1C59); (0xA620, 0xA629); (0xA8D0, 0xA8D9); (0xA900, 0xA909);
    (0xA9D0, 0xA9D9); (0xA9F0, 0xA9F9); (0xAA50, 0xAA59); (0xABF0, 0xABF9);
    (0xFF10, 0xFF19); (0x104A0, 0x104A9); (0x10D30, 0x10D39); (0x11066, 0x1106F);
    (0x110F0, 0x110F9); (0x11136, 0x1113F); (0x111D0, 0x111D9); (0x112F0, 0x112F9);
    (0x11450, 0x11459); (0x114D0, 0x114D9); (0x11650, 0x11659); (0x116C0, 0x116C9);
    (0x11730, 0x11739); (0x118E0, 0x118E9); (0x11950, 0x11959); (0x11C50, 0x11C59);
    (0x11D50, 0x11D59); (0x11DA0, 0x11DA9); (0x16A60, 0x16A69); (0x16AC0, 0x16AC9);
    (0x16B50, 0x16B59); (0x1D7CE, 0x1D7FF); (0x1E140, 0x1E149); (0x1E2F0, 0x1E2F9);
    (0x1E950, 0x1E959); (0x1FBF0, 0x1FBF9) ].

(** Code points that are digits without being decimal (superscripts, circled
    digits and the like): [str.isdigit] accepts them, [int] does not. *)
Definition other_digit_ranges : list (Z * Z) :=
  [ (0x00B2, 0x00B3); (0x00B9, 0x00B9); (0x1369, 0x1371); (0x19DA, 0x19DA);
    (0x2070, 0x2070); (0x2074, 0x2079); (0x2080, 0x2089); (0x2460, 0x2468);
    (0x2474, 0x247C); (0x2488, 0x2490); (0x24EA, 0x24EA); (0x24F5, 0x24FD);
    (0x24FF, 0x24FF); (0x2776, 0x277E); (0x2780, 0x2788); (0x278A, 0x2792);
    (0x10A40, 0x10A43); (0x10E60, 0x10E68); (0x11052, 0x1105A); (0x1F100, 0x1F10A) ].

Definition in_range (c : Z) (r : Z * Z) : bool := between (fst r) (snd r) c.

(** [ch.isdecimal()] and [ch.isdigit()] *)
Definition isdecimal (c : Z) : bool := existsb (in_range c) decimal_ranges.
Definition isdigit (c : Z) : bool :=
  isdecimal c || existsb (in_range c) other_digit_ranges.

Definition decimal_value (c : Z) : option Z :=
  option_map (fun r => (c - fst r) mod 10) (find (in_range c) decimal_ranges).

(** [sys.int_info.default_max_str_digits] *)
Definition int_max_str_digits : Z := 4300.

(** The value of a string of decimal characters, most significant first. *)
Fixpoint int_digits (acc : Z) (s : list Z) : option Z :=
  match s with
  | [] => Some acc
  | c :: rest =>
    match decimal_value c with
    | Some d => int_digits (acc * 10 + d) rest
    | None => None
    end
  end.

(** [int(s)] for a string [s] of [isdigit] characters; [None] stands for
    [ValueError]: the empty string, a character that is not decimal, or more
    digits than the interpreter's conversion limit. *)
Definition int_of_str (s : list Z) : option Z :=
  match s with
  | [] => None
  | _ => if int_max_str_digits <? Z.of_nat (length s) then None else int_digits 0 s
  end.

(** [l[i]]; [None] stands for [IndexError]. *)
Definition index (l : list Z) (i : Z) : option Z :=
  let n := Z.of_nat (length l) in
  if (0 <=? i) && (i <? n) then nth_error l (Z.to_nat i)
  else if (- n <=? i) && (i <? 0) then nth_error l (Z.to_nat (i + n))
  else None.

(** [int.from_bytes(bs, byteorder="big", signed=False)] *)
Definition int_from_bytes_big (bs : list byte) : Z :=
  be_value (map byte_val bs).

End Py.

(* ================================================================== *)
(** ** [partitioner.py] *)

Module Partitioner.

Import Py.

(** [default_partitioner(key, all_partitions, available_partitions)];
    the result is [None] when the call raises. *)
Definition default_partitioner
    (key : option (list byte)) (all_partitions available_partitions : list Z)
  : option Z :=
  match available_partitions with
  | [] => Some 0
  | _ =>
    match key with
    | None => index available_partitions 0
    | Some k =>
      let key_hash := int_from_bytes_big (firstn 8 (Sha256.digest k)) in
      let idx := key_hash mod Z.of_nat (length available_partitions) in
      index available_partitions idx
    end
  end.

(** How the [try] block of [partition_by_customer_id] ends. *)
Inductive try_result :=
| Returned (p : Z)
| Raised
| Completed.

(** [digits = "".join(ch for ch in text if ch.isdigit())] *)
Definition digits_of (text : list Z) : list Z := filter isdigit text.

Definition try_block (key : list byte) (available_partitions : list Z) : try_result :=
  match decode_utf8 key with
  | None => Raised
  | Some text =>
    let digits := digits_of text in
    match digits with
    | [] => Completed
    | _ =>
      match int_of_str digits with
      | None => Raised
      | Some cid =>
        match available_partitions with
        | [] => Returned 0
        | _ =>
          match index available_partitions
                      (cid mod Z.of_nat (length available_partitions)) with
          | Some p => Returned p
          | None => Raised
          end
        end
      end
    end
  end.

(** [partition_by_customer_id(key, all_partitions, available_partitions)] *)
Definition partition_by_customer_id
    (key : option (list byte)) (all_partitions available_partitions : list Z)
  : option Z :=
  match key with
  | None => default_partitioner key all_partitions available_partitions
  | Some k =>
    match try_block k available_partitions with
    | Returned p => Some p
    | Raised | Completed =>
      default_partitioner key all_partitions available_partitions
    end
  end.

End Partitioner.

(* ================================================================== *)
(** ** SQL values: three-valued logic and the tables of the pipeline *)

Module Sql.

(** A condition is TRUE, FALSE or NULL (unknown); a [WHEN] or [WHERE] clause
    fires on TRUE only. *)
Definition cond := option bool.

Definition OR (a b : cond) : cond :=
  match a, b with
  | Some true, _ | _, Some true => Some true
  | Some false, Some false => Some false
  | _, _ => None
  end.

Definition AND (a b : cond) : cond :=
  match a, b with
  | Some false, _ | _, Some false => Some false
  | Some true, Some true => Some true
  | _, _ => None
  end.

Definition GT (a b : option Z) : cond :=
  match a, b with
  | Some x, Some y => Some (y <? x)
  | _, _ => None
  end.

Definition NE (a b : option string) : cond :=
  match a, b with
  | Some x, Some y => Some (negb (String.eqb x y))
  | _, _ => None
  end.

Definition IS_NULL {A} (a : option A) : cond :=
  match a with
  | Some _ => Some false
  | None => Some true
  end.

Definition holds (c : cond) : bool :=
  match c with
  | Some true => true
  | _ => false
  end.

End Sql.

(** [RETAIL.RAW.EVENTS]. Its DDL is not part of the repository; the columns
    are those the producer emits and the [MERGE] reads, every one of them
    present (the record has no NULL). [STATUS_TS] counts ticks since the epoch. *)
Module EVENTS.
Record row := Row
  { EVENT_ID : string;
    ORDER_ID : Z;
    CUSTOMER_ID : Z;
    NEW_STATUS : string;
    STATUS_TS : Z;
    SOURCE : string }.
End EVENTS.

(** [RETAIL.DWH.ORDER_STATUS], as [setup_dwh] creates it: [ORDER_ID] is the
    primary key, the other columns are nullable, and [LAST_UPDATE_TS] is a
    [DATE], kept as a day number since the epoch. *)
Module ORDER_STATUS.
Record row := Row
  { ORDER_ID : Z;
    CUSTOMER_ID : option Z;
    PREVIOUS_STATUS : option string;
    CURRENT_STATUS : option string;
    LAST_UPDATE_TS : option Z }.
End ORDER_STATUS.

Module T := ORDER_STATUS.

(** The rows of the [USING ( ... ) AS S] subquery. *)
Module S.
Record row := Row
  { ORDER_ID : Z;
    CUSTOMER_ID : Z;
    NEW_STATUS : string;
    LAST_EVENT_TS : Z }.
End S.

(* ================================================================== *)
(** ** The [MERGE] of [run_merge] and of the scheduled task *)

Module Reducer.

Import Sql.

(** *** The [USING] subquery *)

Definition same_order (x e : EVENTS.row) : bool :=
  EVENTS.ORDER_ID x =? EVENTS.ORDER_ID e.

(** [ROW_NUMBER() OVER (PARTITION BY ORDER_ID ORDER BY STATUS_TS DESC)] for
    the row [e]: one more than the number of rows of its partition sorted
    before it. SQL leaves the order of rows with equal [STATUS_TS] to the
    engine; here the row met first in the scan comes first. *)
Definition row_number (before : list EVENTS.row) (e : EVENTS.row)
                      (after : list EVENTS.row) : nat :=
  1 + length (filter (fun x => same_order x e
                               && (EVENTS.STATUS_TS e <=? EVENTS.STATUS_TS x)) before)
    + length (filter (fun x => same_order x e
                               && (EVENTS.STATUS_TS e <? EVENTS.STATUS_TS x)) after).

(** The inner [SELECT]: every row of [EVENTS] with its [RN]. *)
Fixpoint numbered (before after : list EVENTS.row) : list (EVENTS.row * nat) :=
  match after with
  | [] => []
  | e :: rest => (e, row_number before e rest) :: numbered (before ++ [e]) rest
  end.

(** [SELECT ORDER_ID, CUSTOMER_ID, NEW_STATUS, STATUS_TS AS LAST_EVENT_TS] *)
Definition select (e : EVENTS.row) : S.row :=
  S.Row (EVENTS.ORDER_ID e) (EVENTS.CUSTOMER_ID e)
        (EVENTS.NEW_STATUS e) (EVENTS.STATUS_TS e).

(** [... WHERE RN = 1], for the rows [after] of a scan that has already read
    [before]. *)
Definition winners (before after : list EVENTS.row) : list S.row :=
  map (fun p => select (fst p))
      (filter (fun p => (snd p =? 1)%nat) (numbered before after)).

(** The whole subquery over the contents of [EVENTS]. *)
Definition using_source (events : list EVENTS.row) : list S.row :=
  winners [] events.

(** *** The merge itself *)

Section Merge.

(** Ticks of [STATUS_TS] in one calendar day: 1 if [EVENTS.STATUS_TS] is
    itself a [DATE], 86400 for a timestamp in seconds, and so on. *)
Variable ticks_per_day : Z.

(** The conversions SQL inserts between [STATUS_TS] and the [DATE] column:
    a timestamp assigned to the column keeps its calendar day; a date compared
    with a timestamp stands for midnight of its day. *)
Definition to_date (ts : Z) : Z := ts / ticks_per_day.
Definition to_timestamp (d : Z) : Z := d * ticks_per_day.

(** [(S.LAST_EVENT_TS > T.LAST_UPDATE_TS OR T.LAST_UPDATE_TS IS NULL)
     AND (T.CURRENT_STATUS <> S.NEW_STATUS OR T.CURRENT_STATUS IS NULL)] *)
Definition matched_condition (t : T.row) (s : S.row) : cond :=
  AND (OR (GT (Some (S.LAST_EVENT_TS s)) (option_map to_timestamp (T.LAST_UPDATE_TS t)))
          (IS_NULL (T.LAST_UPDATE_TS t)))
      (OR (NE (T.CURRENT_STATUS t) (Some (S.NEW_STATUS s)))
          (IS_NULL (T.CURRENT_STATUS t))).

(** [THEN UPDATE SET ...] *)
Definition update_set (t : T.row) (s : S.row) : T.row :=
  T.Row (T.ORDER_ID t)
        (Some (S.CUSTOMER_ID s))
        (T.CURRENT_STATUS t)
        (Some (S.NEW_STATUS s))
        (Some (to_date (S.LAST_EVENT_TS s))).

(** [INSERT (...) VALUES (S.ORDER_ID, S.CUSTOMER_ID, NULL, S.NEW_STATUS, S.LAST_EVENT_TS)] *)
Definition insert_values (s : S.row) : T.row :=
  T.Row (S.ORDER_ID s)
        (Some (S.CUSTOMER_ID s))
        None
        (Some (S.NEW_STATUS s))
        (Some (to_date (S.LAST_EVENT_TS s))).

(** [ON T.ORDER_ID = S.ORDER_ID] *)
Definition on (t : T.row) (s : S.row) : bool := T.ORDER_ID t =? S.ORDER_ID s.

(** [WHEN MATCHED AND ... THEN UPDATE]: a matched row that fails the
    condition is left as it is. *)
Definition when_matched (t : T.row) (s : S.row) : T.row :=
  if holds (matched_condition t s) then update_set t s else t.

(** The target row [t] joined with the source: the subquery has one row per
    [ORDER_ID], so at most one source row joins it. *)
Definition merge_row (src : list S.row) (t : T.row) : T.row :=
  match find (on t) src with
  | Some s => when_matched t s
  | None => t
  end.

(** [WHEN NOT MATCHED THEN INSERT]: source rows joined with no target row. *)
Definition not_matched (target : list T.row) (s : S.row) : bool :=
  negb (existsb (fun t => on t s) target).

(** [MERGE INTO ... AS T USING ... AS S]: both clauses are decided on the
    table as it was before the statement. *)
Definition merge (target : list T.row) (src : list S.row) : list T.row :=
  map (merge_row src) target
  ++ map insert_values (filter (not_matched target) src).

(** One reducer pass: [run_merge] with [EVENTS] holding [events] and
    [ORDER_STATUS] holding [target]; the result is the new [ORDER_STATUS]. *)
Definition run_merge (events : list EVENTS.row) (target : list T.row) : list T.row :=
  merge target (using_source events).

(** Successive passes, each over the contents of [EVENTS] at that time. *)
Definition passes (windows : list (list EVENTS.row)) (target : list T.row)
  : list T.row :=
  fold_left (fun tgt w => run_merge w tgt) windows target.

End Merge.

(** The row stored for an order id, if any. *)
Definition lookup_row (target : list T.row) (o : Z) : option T.row :=
  find (fun t => T.ORDER_ID t =? o) target.

(** The stored [LAST_UPDATE_TS] of an order; no row and NULL both read as
    minus infinity, written [None]. *)
Definition last_update_of (target : list T.row) (o : Z) : option Z :=
  match lookup_row target o with
  | Some t => T.LAST_UPDATE_TS t
  | None => None
  end.

Definition date_le (a b : option Z) : Prop :=
  match a, b with
  | None, _ => True
  | Some x, Some y => x <= y
  | Some _, None => False
  end.

(** The candidate [s] is strictly newer than the stored row [t]; a stored
    NULL is older than every event. *)
Definition strictly_newer (ticks_per_day : Z) (s : S.row) (t : T.row) : Prop :=
  match T.LAST_UPDATE_TS t with
  | Some d => to_timestamp ticks_per_day d < S.LAST_EVENT_TS s
  | None => True
  end.

(** The candidate's status is not the stored current status; a stored NULL
    differs from every status. *)
Definition status_differs (s : S.row) (t : T.row) : Prop :=
  T.CURRENT_STATUS t <> Some (S.NEW_STATUS s).

End Reducer.

(** Concrete tables used as inputs below. *)
Module Scenario.

Definition seconds_per_day : Z := 86400.

(** Three events of order 1, one pass, empty [ORDER_STATUS]. *)
Definition created_1 := EVENTS.Row "e-created" 1 42 "CREATED" 1 "kafka_producer".
Definition paid_2 := EVENTS.Row "e-paid" 1 42 "PAID" 2 "kafka_producer".
Definition shipped_3 := EVENTS.Row "e-shipped" 1 42 "SHIPPED" 3 "kafka_producer".
Definition end_to_end : list EVENTS.row := [created_1; paid_2; shipped_3].

(** Two events of order 9 with the same [STATUS_TS], and a row of that order
    older than both. *)
Definition tie_a := EVENTS.Row "a" 9 42 "PAID" 5 "kafka_producer".
Definition tie_b := EVENTS.Row "b" 9 42 "SHIPPED" 5 "kafka_producer".
Definition order_9_paid := T.Row 9 (Some 42) None (Some "PAID"%string) (Some 3).

(** The event [tie_a] delivered a second time under another [EVENT_ID]. *)
Definition tie_a_twin := EVENTS.Row "a-bis" 9 42 "PAID" 5 "kafka_producer".

(** Order 7 is PAID since day 0; it ships at 01:00 the next day (in seconds). *)
Definition stored_paid := T.Row 7 (Some 42) (Some "CREATED"%string) (Some "PAID"%string) (Some 0).
Definition shipped_next_day := EVENTS.Row "e-2" 7 42 "SHIPPED" 90000 "kafka_producer".

(** Order 7 is PAID since day 10; a second PAID event bears day 15. *)
Definition paid_day_10 := T.Row 7 (Some 42) (Some "CREATED"%string) (Some "PAID"%string) (Some 10).
Definition paid_again_15 := EVENTS.Row "e-3" 7 42 "PAID" 15 "kafka_producer".

End Scenario.

(* ================================================================== *)
(** ** The rest of [setup_database.py], and the dashboard's view of [EVENTS] *)

Module Database.

Import Reducer.

(** [setup_dwh]: [CREATE OR REPLACE TABLE RETAIL.DWH.ORDER_STATUS] leaves an
    empty table, whatever was there. *)
Definition setup_dwh (target : list T.row) : list T.row := [].

(** [SELECT COUNT( * ) FROM RETAIL.DWH.ORDER_STATUS], which [run_merge] reports
    after the merge. *)
Definition row_count (target : list T.row) : Z := Z.of_nat (length target).

(** The script run as a program: [setup_dwh()] then [run_merge()]; the
    result is the table left behind and the row count reported. *)
Definition main (ticks_per_day : Z) (events : list EVENTS.row) (target : list T.row)
  : list T.row * Z :=
  let created := setup_dwh target in
  let merged := run_merge ticks_per_day events created in
  (merged, row_count merged).

(** What a pass maintains in each row it writes: a current status and a
    date are present, and the previous status is not the current one. *)
Definition sound_row (t : T.row) : Prop :=
  T.CURRENT_STATUS t <> None
  /\ T.LAST_UPDATE_TS t <> None
  /\ T.PREVIOUS_STATUS t <> T.CURRENT_STATUS t.

(** The distinct orders of [EVENTS] that have no row in [ORDER_STATUS]. *)
Definition orders_without_row (target : list T.row) (events : list EVENTS.row)
  : list Z :=
  filter (fun o => negb (existsb (fun t => T.ORDER_ID t =? o) target))
         (nodup Z.eq_dec (map EVENTS.ORDER_ID events)).

(** Events of one order that bear the same [STATUS_TS] agree on the columns
    the merge reads. *)
Definition ties_agree (events : list EVENTS.row) : Prop :=
  forall x y, In x events -> In y events ->
              EVENTS.ORDER_ID x = EVENTS.ORDER_ID y ->
              EVENTS.STATUS_TS x = EVENTS.STATUS_TS y ->
              select x = select y.

End Database.

(** [monitoring/app.py], [load_events]: the three aggregates over [EVENTS]. *)
Module Dashboard.

Record events_stats := Stats
  { total_events : Z;
    unique_orders : Z;
    latest_event : option Z }.

(** [MAX(STATUS_TS)]: NULL on an empty table. *)
Definition max_status_ts (events : list EVENTS.row) : option Z :=
  match events with
  | [] => None
  | e :: rest => Some (fold_left Z.max (map EVENTS.STATUS_TS rest) (EVENTS.STATUS_TS e))
  end.

(** [SELECT COUNT( * ), COUNT(DISTINCT ORDER_ID), MAX(STATUS_TS) FROM RETAIL.RAW.EVENTS] *)
Definition load_events (events : list EVENTS.row) : events_stats :=
  Stats (Z.of_nat (length events))
        (Z.of_nat (length (nodup Z.eq_dec (map EVENTS.ORDER_ID events))))
        (max_status_ts events).

End Dashboard.

Definition bytes_of_string (s : string) : list byte := list_byte_of_string s.

(** Keys and partition lists used as concrete inputs below. *)
Definition key_customer_123 : list byte := bytes_of_string "customer:123".

(** The UTF-8 encoding of a one followed by a superscript two (U+00B2). *)
Definition key_one_squared : list byte := [x31; xc2; xb2].

(** 4301 times the digit one. *)
Definition key_4301_ones : list byte := repeat x31 4301.

Definition seven_partitions : list Z := [10; 11; 12; 13; 14; 15; 16].

(** Vocabulary for statements about keys. *)
Module KeyFacts.

(** A byte of the ASCII range. *)
Definition is_ascii (b : byte) : Prop := Sha256.byte_val b < 0x80.

(** The ASCII digits ['0'] to ['9']. *)
Definition ascii_digit (c : Z) : bool := Py.between 0x30 0x39 c.

(** The number a string of ASCII digits writes in base ten. *)
Definition ascii_decimal (ds : list Z) : Z :=
  fold_left (fun acc c => acc * 10 + (c - 0x30)) ds 0.

(** Byte values that occur in no UTF-8 encoding. *)
Definition never_in_utf8 (c : Z) : Prop := c = 0xC0 \/ c = 0xC1 \/ 0xF5 <= c.

(** The key yields the customer id [cid]: it decodes, and [int] converts its
    digit characters to [cid]. *)
Definition customer_id_of (key : list byte) (cid : Z) : Prop :=
  exists text, Py.decode_utf8 key = Some text
               /\ Py.int_of_str (Partitioner.digits_of text) = Some cid.

End KeyFacts.

(* ================================================================== *)
(** * Properties of the partitioner *)

Section PartitionerFacts.

Import Py Partitioner.

Lemma index_within (l : list Z) (i : Z) :
  0 <= i < Z.of_nat (length l) ->
  exists p, index l i = Some p /\ In p l.
Proof.
  intros Hi. unfold index.
  replace ((0 <=? i) && (i <? Z.of_nat (length l))) with true
    by (symmetry; apply andb_true_iff; split; [apply Z.leb_le | apply Z.ltb_lt]; lia).
  destruct (nth_error l (Z.to_nat i)) as [p|] eqn:E.
  - exists p. split; [reflexivity | eapply nth_error_In; eassumption].
  - apply nth_error_None in E. lia.
Qed.

Lemma length_pos (l : list Z) : l <> [] -> 0 < Z.of_nat (length l).
Proof. destruct l; [congruence | simpl; lia]. Qed.

Lemma index_mod_within (l : list Z) (x : Z) :
  l <> [] ->
  exists p, index l (x mod Z.of_nat (length l)) = Some p /\ In p l.
Proof.
  intros Hl. apply index_within. apply Z.mod_pos_bound, length_pos, Hl.
Qed.

Lemma default_partitioner_nonempty key all avail :
  avail <> [] ->
  exists p, default_partitioner key all avail = Some p /\ In p avail.
Proof.
  intros Hne. unfold default_partitioner.
  destruct avail as [|a rest] eqn:Ea; [congruence|]. rewrite <- Ea in *.
  destruct key as [k|].
  - apply index_mod_within, Hne.
  - apply index_within. pose proof (length_pos avail Hne). lia.
Qed.

(** What the [try] block can return. *)
Lemma try_block_returned k avail p :
  try_block k avail = Returned p ->
  match avail with
  | [] => p = 0
  | _ => In p avail
  end.
Proof.
  unfold try_block.
  destruct (decode_utf8 k) as [text|]; [|discriminate].
  destruct (digits_of text) as [|d ds]; [discriminate|].
  destruct (int_of_str (d :: ds)) as [cid|]; [|discriminate].
  destruct avail as [|a rest] eqn:Ea.
  - intros [= <-]. reflexivity.
  - rewrite <- Ea.
    destruct (index avail (cid mod Z.of_nat (length avail))) as [q|] eqn:Ei;
      [|discriminate].
    intros [= <-].
    destruct (index_mod_within avail cid) as (q' & Hq & Hin); [subst; discriminate|].
    rewrite Hq in Ei. injection Ei as <-. subst avail. exact Hin.
Qed.

Lemma filter_none {A} (f : A -> bool) (l : list A) :
  forallb (fun c => negb (f c)) l = true -> filter f l = [].
Proof.
  induction l as [|a l IH]; simpl; [reflexivity|].
  intros H. apply andb_true_iff in H as [Ha Hl].
  apply negb_true_iff in Ha. rewrite Ha. auto.
Qed.

Lemma filter_all {A} (f : A -> bool) (l : list A) :
  forallb f l = true -> filter f l = l.
Proof.
  induction l as [|a l IH]; simpl; [reflexivity|].
  intros H. apply andb_true_iff in H as [Ha Hl].
  rewrite Ha, IH by assumption. reflexivity.
Qed.

Lemma isdecimal_isdigit c : isdecimal c = true -> isdigit c = true.
Proof. unfold isdigit. intros ->. reflexivity. Qed.

Lemma forallb_impl {A} (f g : A -> bool) (l : list A) :
  (forall a, f a = true -> g a = true) ->
  forallb f l = true -> forallb g l = true.
Proof.
  intros Hfg. induction l as [|a l IH]; simpl; [reflexivity|].
  intros H. apply andb_true_iff in H as [Ha Hl].
  rewrite (Hfg _ Ha), IH by assumption. reflexivity.
Qed.

(** The digits of a text whose digit characters form one run of decimals. *)
Lemma digits_of_single_run pre run post :
  forallb (fun c => negb (isdigit c)) (pre ++ post) = true ->
  forallb isdecimal run = true ->
  digits_of (pre ++ run ++ post) = run.
Proof.
  intros Hout Hrun. unfold digits_of.
  rewrite forallb_app in Hout. apply andb_true_iff in Hout as [Hpre Hpost].
  rewrite !filter_app, (filter_none _ _ Hpre), (filter_none _ _ Hpost).
  rewrite app_nil_r. simpl. apply filter_all.
  eapply forallb_impl; [apply isdecimal_isdigit | exact Hrun].
Qed.

Lemma decimal_value_defined c :
  isdecimal c = true -> exists d, decimal_value c = Some d.
Proof.
  unfold isdecimal, decimal_value. intros H.
  apply existsb_exists in H as (r & Hin & Hr).
  destruct (find (in_range c) decimal_ranges) as [r'|] eqn:E.
  - eexists. reflexivity.
  - pose proof (find_none _ _ E _ Hin) as Hn. congruence.
Qed.

Lemma int_digits_defined run : forall acc,
  forallb isdecimal run = true -> exists cid, int_digits acc run = Some cid.
Proof.
  induction run as [|c run IH]; simpl; intros acc H.
  - eexists. reflexivity.
  - apply andb_true_iff in H as [Hc Hrun].
    destruct (decimal_value_defined c Hc) as (d & ->). apply IH, Hrun.
Qed.

Lemma int_of_str_run run :
  run <> [] -> Z.of_nat (length run) <= int_max_str_digits ->
  int_of_str run = int_digits 0 run.
Proof.
  intros Hne Hlen. unfold int_of_str. destruct run; [congruence|].
  replace (int_max_str_digits <? _) with false; [reflexivity|].
  symmetry. apply Z.ltb_ge. exact Hlen.
Qed.

(** The [try] block on a key whose digits convert. *)
Lemma try_block_converts k text cid avail :
  decode_utf8 k = Some text ->
  digits_of text <> [] ->
  int_of_str (digits_of text) = Some cid ->
  avail <> [] ->
  exists p, index avail (cid mod Z.of_nat (length avail)) = Some p
            /\ try_block k avail = Returned p.
Proof.
  intros Hdec Hdig Hint Hne.
  destruct (index_mod_within avail cid Hne) as (p & Hp & _).
  exists p. split; [exact Hp|].
  unfold try_block. rewrite Hdec.
  destruct (digits_of text) as [|d ds] eqn:Ed; [congruence|].
  rewrite Hint. destruct avail as [|a rest] eqn:Ea; [congruence|].
  rewrite <- Ea in *. rewrite Hp. reflexivity.
Qed.

(** The [try] block on a key that does not yield a customer id. *)
Lemma try_block_falls_back k avail :
  decode_utf8 k = None
  \/ (exists text, decode_utf8 k = Some text
                   /\ (digits_of text = [] \/ int_of_str (digits_of text) = None)) ->
  try_block k avail = Raised \/ try_block k avail = Completed.
Proof.
  unfold try_block. intros [-> | (text & -> & [-> | Hint])].
  - left; reflexivity.
  - right; reflexivity.
  - destruct (digits_of text); [right; reflexivity|].
    rewrite Hint. left; reflexivity.
Qed.

End PartitionerFacts.

Section PartitionerClaims.

Import Py Partitioner.

(** C8. With no available partition both routers return partition 0, for a
    present or an absent key and any [all_partitions], and neither raises. *)
Theorem C8_empty_available_returns_zero :
  forall (key : option (list byte)) (all : list Z),
    default_partitioner key all [] = Some 0
    /\ partition_by_customer_id key all [] = Some 0.
Proof.
  intros key all. split; [reflexivity|].
  destruct key as [k|]; [|reflexivity].
  unfold partition_by_customer_id.
  destruct (try_block k []) as [p| |] eqn:E; try reflexivity.
  apply try_block_returned in E. simpl in E. congruence.
Qed.

(** C10. With at least one available partition both routers return, without
    raising, an element of [available_partitions]. *)
Theorem C10_result_is_available_partition :
  forall (key : option (list byte)) (all avail : list Z),
    avail <> [] ->
    (exists p, default_partitioner key all avail = Some p /\ In p avail)
    /\ (exists p, partition_by_customer_id key all avail = Some p /\ In p avail).
Proof.
  intros key all avail Hne.
  pose proof (default_partitioner_nonempty key all avail Hne) as Hd.
  split; [exact Hd|].
  unfold partition_by_customer_id.
  destruct key as [k|]; [|exact Hd].
  destruct (try_block k avail) as [p| |] eqn:E; try exact Hd.
  exists p. split; [reflexivity|].
  apply try_block_returned in E. destruct avail; [congruence | exact E].
Qed.

Lemma C10_result_is_available_partition_witness :
  seven_partitions <> []
  /\ (exists p, default_partitioner (Some key_one_squared) [] seven_partitions = Some p
                /\ In p seven_partitions)
  /\ (exists p, partition_by_customer_id (Some key_one_squared) [] seven_partitions = Some p
                /\ In p seven_partitions).
Proof.
  split; [discriminate|].
  apply (C10_result_is_available_partition (Some key_one_squared) [] seven_partitions).
  discriminate.
Defined.

(** C7 as stated fails: the key "1²" decodes, and contains the decimal digit
    1, so the claim sends it to [avail[1 mod 7]], partition 11; but [isdigit]
    also keeps the superscript, [int] rejects the string, and the key is
    routed by its hash, to partition 10. *)
Lemma C7_counterexample :
  decode_utf8 key_one_squared = Some [0x31; 0xB2]
  /\ filter isdecimal [0x31; 0xB2] = [0x31]
  /\ int_digits 0 [0x31] = Some 1
  /\ index seven_partitions (1 mod Z.of_nat (length seven_partitions)) = Some 11
  /\ partition_by_customer_id (Some key_one_squared) [] seven_partitions = Some 10
  /\ partition_by_customer_id (Some key_one_squared) [] seven_partitions
     <> index seven_partitions (1 mod Z.of_nat (length seven_partitions)).
Proof.
  repeat split; try (vm_compute; reflexivity). vm_compute. discriminate.
Qed.

(** A key of 4301 ones: all decimal digits, but [int] refuses a string that
    long, and the key is routed as [default_partitioner] routes it. *)
Lemma long_digit_key_is_hashed :
  forallb isdecimal (repeat 0x31 4301) = true
  /\ int_of_str (digits_of (repeat 0x31 4301)) = None
  /\ forall all avail,
       partition_by_customer_id (Some key_4301_ones) all avail
       = default_partitioner (Some key_4301_ones) all avail.
Proof.
  assert (Hint : int_of_str (digits_of (repeat 0x31 4301)) = None)
    by (vm_compute; reflexivity).
  split; [vm_compute; reflexivity|]. split; [exact Hint|].
  intros all avail. unfold partition_by_customer_id.
  destruct (try_block_falls_back key_4301_ones avail) as [-> | ->];
    try reflexivity.
  right. exists (repeat 0x31 4301). split; [vm_compute; reflexivity|].
  right. exact Hint.
Qed.

(** C7, amended. With a non-empty [avail]:
    - a key that decodes to a text whose [isdigit] characters form one run
      [run] of decimal digits, no longer than the conversion limit, is routed
      to [avail[cid mod len(avail)]], [cid] being the value of [run], with no
      hashing; so is [b"customer:123"], to [avail[123 mod len(avail)]];
    - a key that does not decode, or has no [isdigit] character, or whose
      [isdigit] characters [int] does not convert, is routed as
      [default_partitioner] routes it (for any [avail]). *)
Theorem C7_customer_id_routing :
  forall (key : list byte) (all avail : list Z),
    (forall text pre run post,
        avail <> [] ->
        decode_utf8 key = Some text ->
        text = pre ++ run ++ post ->
        forallb (fun c => negb (isdigit c)) (pre ++ post) = true ->
        run <> [] ->
        forallb isdecimal run = true ->
        Z.of_nat (length run) <= int_max_str_digits ->
        exists cid p,
          int_digits 0 run = Some cid
          /\ index avail (cid mod Z.of_nat (length avail)) = Some p
          /\ partition_by_customer_id (Some key) all avail = Some p)
    /\ (avail <> [] ->
        exists p,
          index avail (123 mod Z.of_nat (length avail)) = Some p
          /\ partition_by_customer_id (Some key_customer_123) all avail = Some p)
    /\ (decode_utf8 key = None
        \/ (exists text, decode_utf8 key = Some text
                         /\ (digits_of text = []
                             \/ int_of_str (digits_of text) = None)) ->
        partition_by_customer_id (Some key) all avail
        = default_partitioner (Some key) all avail).
Proof.
  intros key all avail.
  assert (Hrun : forall k text pre run post,
             avail <> [] ->
             decode_utf8 k = Some text ->
             text = pre ++ run ++ post ->
             forallb (fun c => negb (isdigit c)) (pre ++ post) = true ->
             run <> [] ->
             forallb isdecimal run = true ->
             Z.of_nat (length run) <= int_max_str_digits ->
             exists cid p,
               int_digits 0 run = Some cid
               /\ index avail (cid mod Z.of_nat (length avail)) = Some p
               /\ partition_by_customer_id (Some k) all avail = Some p).
  { intros k text pre run post Hne Hdec -> Hout Hrne Hdecs Hlen.
    destruct (int_digits_defined run 0 Hdecs) as (cid & Hcid).
    pose proof (digits_of_single_run pre run post Hout Hdecs) as Hdig.
    destruct (try_block_converts k _ cid avail Hdec) as (p & Hp & Htry).
    - rewrite Hdig. exact Hrne.
    - rewrite Hdig, int_of_str_run by assumption. exact Hcid.
    - exact Hne.
    - exists cid, p. repeat split; try assumption.
      unfold partition_by_customer_id. rewrite Htry. reflexivity. }
  split; [apply Hrun|]. split.
  - intros Hne.
    destruct (Hrun key_customer_123
                   [99; 117; 115; 116; 111; 109; 101; 114; 58; 49; 50; 51]
                   [99; 117; 115; 116; 111; 109; 101; 114; 58] [49; 50; 51] [])
      as (cid & p & Hcid & Hp & Hres);
      [ exact Hne | vm_compute; reflexivity | reflexivity | vm_compute; reflexivity
      | discriminate | vm_compute; reflexivity | vm_compute; discriminate | ].
    vm_compute in Hcid. injection Hcid as <-. exists p. split; assumption.
  - intros Hfb. unfold partition_by_customer_id.
    destruct (try_block_falls_back key avail Hfb) as [-> | ->]; reflexivity.
Qed.

Lemma C7_customer_id_routing_witness :
  seven_partitions <> []
  /\ decode_utf8 key_customer_123
     = Some ([99; 117; 115; 116; 111; 109; 101; 114; 58] ++ [49; 50; 51] ++ [])
  /\ (exists cid p,
        int_digits 0 [49; 50; 51] = Some cid
        /\ index seven_partitions (cid mod Z.of_nat (length seven_partitions)) = Some p
        /\ partition_by_customer_id (Some key_customer_123) [0; 1] seven_partitions
           = Some p)
  /\ (exists p,
        index seven_partitions (123 mod Z.of_nat (length seven_partitions)) = Some p
        /\ partition_by_customer_id (Some key_customer_123) [0; 1] seven_partitions
           = Some p)
  /\ int_of_str (digits_of [0x31; 0xB2]) = None
  /\ partition_by_customer_id (Some key_one_squared) [0; 1] seven_partitions
     = default_partitioner (Some key_one_squared) [0; 1] seven_partitions.
Proof.
  assert (Hne : seven_partitions <> []) by discriminate.
  assert (Hdec : decode_utf8 key_customer_123
                 = Some ([99; 117; 115; 116; 111; 109; 101; 114; 58]
                           ++ [49; 50; 51] ++ []))
    by (vm_compute; reflexivity).
  assert (Hint : int_of_str (digits_of [0x31; 0xB2]) = None)
    by (vm_compute; reflexivity).
  split; [exact Hne|]. split; [exact Hdec|].
  destruct (C7_customer_id_routing key_customer_123 [0; 1] seven_partitions)
    as (Hrun & Hex & _).
  split.
  - apply (Hrun _ [99; 117; 115; 116; 111; 109; 101; 114; 58] [49; 50; 51] []
                Hne Hdec eq_refl).
    + vm_compute. reflexivity.
    + discriminate.
    + vm_compute. reflexivity.
    + vm_compute. discriminate.
  - split; [exact (Hex Hne)|]. split; [exact Hint|].
    apply (proj2 (proj2 (C7_customer_id_routing key_one_squared [0; 1]
                                                seven_partitions))).
    right. exists [0x31; 0xB2]. split; [vm_compute; reflexivity|].
    right. exact Hint.
Defined.

End PartitionerClaims.

(* ================================================================== *)
(** * Properties of the reducer *)

Section SourceFacts.

Import Reducer.

Lemma filter_nil_iff {A} (f : A -> bool) (l : list A) :
  filter f l = [] <-> forall x, In x l -> f x = false.
Proof.
  induction l as [|a l IH]; simpl.
  - split; [intros _ x [] | reflexivity].
  - destruct (f a) eqn:Fa.
    + split; [discriminate|]. intros H. specialize (H a (or_introl eq_refl)). congruence.
    + rewrite IH. split.
      * intros H x [<- | Hx]; auto.
      * intros H x Hx. apply H. right. exact Hx.
Qed.

(** [RN = 1]: no row of the partition scanned earlier is as recent, and none
    scanned later is more recent. *)
Lemma row_number_one b e a :
  row_number b e a = 1%nat <->
  (forall x, In x b -> EVENTS.ORDER_ID x = EVENTS.ORDER_ID e ->
             EVENTS.STATUS_TS x < EVENTS.STATUS_TS e)
  /\ (forall x, In x a -> EVENTS.ORDER_ID x = EVENTS.ORDER_ID e ->
                EVENTS.STATUS_TS x <= EVENTS.STATUS_TS e).
Proof.
  unfold row_number.
  set (fb := fun x => same_order x e && (EVENTS.STATUS_TS e <=? EVENTS.STATUS_TS x)).
  set (fa := fun x => same_order x e && (EVENTS.STATUS_TS e <? EVENTS.STATUS_TS x)).
  assert (Hlen : (1 + length (filter fb b) + length (filter fa a) = 1)%nat
                 <-> filter fb b = [] /\ filter fa a = []).
  { split.
    - intros H. split; apply length_zero_iff_nil; lia.
    - intros [-> ->]. reflexivity. }
  rewrite Hlen, !filter_nil_iff. unfold fb, fa, same_order.
  split; intros [Hb Ha]; split; intros x Hx.
  - intros Ho. specialize (Hb x Hx). rewrite Ho, Z.eqb_refl in Hb. simpl in Hb.
    apply Z.leb_gt in Hb. exact Hb.
  - intros Ho. specialize (Ha x Hx). rewrite Ho, Z.eqb_refl in Ha. simpl in Ha.
    apply Z.ltb_ge in Ha. exact Ha.
  - destruct (EVENTS.ORDER_ID x =? EVENTS.ORDER_ID e) eqn:Eo; [|reflexivity].
    apply Z.eqb_eq in Eo. simpl. apply Z.leb_gt. auto.
  - destruct (EVENTS.ORDER_ID x =? EVENTS.ORDER_ID e) eqn:Eo; [|reflexivity].
    apply Z.eqb_eq in Eo. simpl. apply Z.ltb_ge. auto.
Qed.

Lemma in_numbered e n : forall a b,
  In (e, n) (numbered b a) <->
  exists a1 a2, a = a1 ++ e :: a2 /\ n = row_number (b ++ a1) e a2.
Proof.
  induction a as [|x rest IH]; intros b; simpl.
  - split; [intros [] | intros ([|? ?] & ? & [=] & _)].
  - rewrite IH. split.
    + intros [[= -> <-] | (a1 & a2 & -> & ->)].
      * exists [], rest. rewrite app_nil_r. auto.
      * exists (x :: a1), a2. rewrite <- app_assoc. auto.
    + intros ([|y a1] & a2 & Heq & ->); simpl in Heq; injection Heq as -> ->.
      * left. rewrite app_nil_r. reflexivity.
      * right. exists a1, a2. rewrite <- app_assoc. auto.
Qed.

Lemma winners_cons b e rest :
  winners b (e :: rest) =
  if (row_number b e rest =? 1)%nat
  then select e :: winners (b ++ [e]) rest
  else winners (b ++ [e]) rest.
Proof.
  unfold winners. cbn [numbered filter snd].
  destruct (row_number b e rest =? 1)%nat; reflexivity.
Qed.

Lemma in_winners s b a :
  In s (winners b a) <->
  exists a1 e a2, a = a1 ++ e :: a2 /\ s = select e
                  /\ row_number (b ++ a1) e a2 = 1%nat.
Proof.
  unfold winners. rewrite in_map_iff. split.
  - intros ([e n] & <- & Hin). apply filter_In in Hin as [Hin Hn].
    simpl in *. apply Nat.eqb_eq in Hn. subst n.
    apply in_numbered in Hin as (a1 & a2 & -> & Hrn).
    exists a1, e, a2. auto.
  - intros (a1 & e & a2 & -> & -> & Hrn).
    exists (e, 1%nat). split; [reflexivity|].
    apply filter_In. split; [|reflexivity].
    apply in_numbered. exists a1, a2. auto.
Qed.

Lemma in_using_source s W :
  In s (using_source W) <->
  exists b e a, W = b ++ e :: a /\ s = select e /\ row_number b e a = 1%nat.
Proof. apply (in_winners s [] W). Qed.

(** The subquery yields at most one row per [ORDER_ID]. *)
Lemma winners_NoDup : forall a b, NoDup (map S.ORDER_ID (winners b a)).
Proof.
  induction a as [|e rest IH]; intros b; [constructor|].
  rewrite winners_cons.
  destruct (row_number b e rest =? 1)%nat eqn:Ern; [|apply IH].
  simpl. constructor; [|apply IH].
  apply Nat.eqb_eq, row_number_one in Ern as [_ Hafter].
  intros Hin. apply in_map_iff in Hin as (s & Hs & Hin).
  apply in_winners in Hin as (a1 & x & a2 & -> & -> & Hrn).
  apply row_number_one in Hrn as [Hbefore _]. simpl in Hs.
  assert (EVENTS.STATUS_TS e < EVENTS.STATUS_TS x).
  { apply Hbefore; [|congruence]. apply in_or_app. left.
    apply in_or_app. right. left. reflexivity. }
  assert (EVENTS.STATUS_TS x <= EVENTS.STATUS_TS e).
  { apply Hafter; [|exact Hs]. apply in_or_app. right. left. reflexivity. }
  lia.
Qed.

Lemma using_source_NoDup W : NoDup (map S.ORDER_ID (using_source W)).
Proof. apply (winners_NoDup W []). Qed.

Lemma same_key_same_row {A} (key : A -> Z) (l : list A) (x y : A) :
  NoDup (map key l) -> In x l -> In y l -> key x = key y -> x = y.
Proof.
  induction l as [|a l IH]; simpl; intros Hnd Hx Hy Hk; [destruct Hx|].
  inversion Hnd as [|? ? Hnotin Hnd']; subst.
  destruct Hx as [-> | Hx], Hy as [-> | Hy]; auto.
  - exfalso. apply Hnotin. rewrite Hk. apply in_map, Hy.
  - exfalso. apply Hnotin. rewrite <- Hk. apply in_map, Hx.
Qed.

(** The winner is an event of the window, none of its order is more recent. *)
Lemma using_source_latest s W :
  In s (using_source W) ->
  exists e, In e W /\ s = select e
            /\ forall x, In x W -> EVENTS.ORDER_ID x = EVENTS.ORDER_ID e ->
                         EVENTS.STATUS_TS x <= EVENTS.STATUS_TS e.
Proof.
  intros Hin. apply in_using_source in Hin as (b & e & a & -> & -> & Hrn).
  apply row_number_one in Hrn as [Hb Ha].
  exists e. split; [apply in_or_app; right; left; reflexivity|].
  split; [reflexivity|].
  intros x Hx Ho. apply in_app_or in Hx as [Hx | [<- | Hx]].
  - specialize (Hb x Hx Ho). lia.
  - lia.
  - apply Ha; assumption.
Qed.

(** Every order of the window has a winner. *)
Lemma first_latest (o : Z) : forall W,
  (exists x, In x W /\ EVENTS.ORDER_ID x = o) ->
  exists b e a, W = b ++ e :: a /\ EVENTS.ORDER_ID e = o
    /\ (forall x, In x b -> EVENTS.ORDER_ID x = o ->
                  EVENTS.STATUS_TS x < EVENTS.STATUS_TS e)
    /\ (forall x, In x a -> EVENTS.ORDER_ID x = o ->
                  EVENTS.STATUS_TS x <= EVENTS.STATUS_TS e).
Proof.
  induction W as [|h t IH]; intros (x & Hx & Ho); [destruct Hx|].
  destruct (existsb (fun y => EVENTS.ORDER_ID y =? o) t) eqn:Ex.
  - apply existsb_exists in Ex as (y & Hy & Hyo). apply Z.eqb_eq in Hyo.
    destruct IH as (b & e & a & -> & He & Hb & Ha); [eauto|].
    destruct ((EVENTS.ORDER_ID h =? o) && (EVENTS.STATUS_TS e <=? EVENTS.STATUS_TS h))
      eqn:Eh.
    + apply andb_true_iff in Eh as [Eo Ets].
      apply Z.eqb_eq in Eo. apply Z.leb_le in Ets.
      exists [], h, (b ++ e :: a). repeat split; auto.
      * intros z [].
      * intros z Hz Hzo. apply in_app_or in Hz as [Hz | [<- | Hz]].
        -- specialize (Hb z Hz Hzo). lia.
        -- exact Ets.
        -- specialize (Ha z Hz Hzo). lia.
    + exists (h :: b), e, a. repeat split; auto.
      intros z [<- | Hz] Hzo; [|auto].
      apply andb_false_iff in Eh as [Eo | Ets].
      * apply Z.eqb_neq in Eo. contradiction.
      * apply Z.leb_gt in Ets. exact Ets.
  - assert (Hnone : forall y, In y t -> EVENTS.ORDER_ID y <> o).
    { intros y Hy Hyo.
      assert (existsb (fun y => EVENTS.ORDER_ID y =? o) t = true).
      { apply existsb_exists. exists y. split; [exact Hy | apply Z.eqb_eq, Hyo]. }
      congruence. }
    destruct Hx as [<- | Hx]; [|exfalso; eapply Hnone; eauto].
    exists [], h, t. repeat split; auto.
    + intros z [].
    + intros z Hz Hzo. exfalso. eapply Hnone; eauto.
Qed.

Lemma using_source_covers W e :
  In e W -> exists s, In s (using_source W) /\ S.ORDER_ID s = EVENTS.ORDER_ID e.
Proof.
  intros Hin.
  destruct (first_latest (EVENTS.ORDER_ID e) W) as (b & w & a & -> & Ho & Hb & Ha);
    [eauto|].
  exists (select w). split; [|exact Ho].
  apply in_using_source. exists b, w, a. repeat split.
  apply row_number_one. split; intros x Hx Hxo; [apply Hb | apply Ha]; congruence.
Qed.

End SourceFacts.

Section MergeFacts.

Import Sql Reducer.

Variable ticks_per_day : Z.

Local Abbreviation when_matched := (when_matched ticks_per_day).
Local Abbreviation merge_row := (merge_row ticks_per_day).
Local Abbreviation merge := (merge ticks_per_day).
Local Abbreviation insert_values := (insert_values ticks_per_day).
Local Abbreviation update_set := (update_set ticks_per_day).

Lemma find_app_split {A} (f : A -> bool) (l1 l2 : list A) :
  find f (l1 ++ l2) = match find f l1 with
                      | Some x => Some x
                      | None => find f l2
                      end.
Proof.
  induction l1 as [|a l1 IH]; simpl; [reflexivity|].
  destruct (f a); [reflexivity | exact IH].
Qed.

Lemma find_map_same {A} (f : A -> bool) (g : A -> A) (l : list A) :
  (forall x, f (g x) = f x) ->
  find f (map g l) = option_map g (find f l).
Proof.
  intros Hfg. induction l as [|a l IH]; simpl; [reflexivity|].
  rewrite Hfg. destruct (f a); [reflexivity | exact IH].
Qed.

Lemma find_pointwise {A} (f g : A -> bool) (l : list A) :
  (forall x, f x = g x) -> find f l = find g l.
Proof.
  intros Hfg. induction l as [|a l IH]; simpl; [reflexivity|].
  rewrite Hfg, IH. reflexivity.
Qed.

(** A source row is found by its [ORDER_ID] when no other row shares it. *)
Lemma find_by_order_id (src : list S.row) (s : S.row) :
  NoDup (map S.ORDER_ID src) -> In s src ->
  find (fun x => S.ORDER_ID x =? S.ORDER_ID s) src = Some s.
Proof.
  induction src as [|a src IH]; simpl; intros Hnd Hin; [destruct Hin|].
  inversion Hnd as [|? ? Hnotin Hnd']; subst.
  destruct Hin as [-> | Hin].
  - rewrite Z.eqb_refl. reflexivity.
  - destruct (S.ORDER_ID a =? S.ORDER_ID s) eqn:E; [|auto].
    apply Z.eqb_eq in E. exfalso. apply Hnotin. rewrite E.
    apply in_map. exact Hin.
Qed.

Lemma find_on (src : list S.row) (t : T.row) (s : S.row) :
  NoDup (map S.ORDER_ID src) -> In s src -> T.ORDER_ID t = S.ORDER_ID s ->
  find (on t) src = Some s.
Proof.
  intros Hnd Hin Ho. rewrite <- (find_by_order_id src s Hnd Hin).
  apply find_pointwise. intros x. unfold on. rewrite Ho. apply Z.eqb_sym.
Qed.

(** The second guard alone rejects an event that repeats the stored status. *)
Lemma when_matched_same_status (t : T.row) (s : S.row) :
  T.CURRENT_STATUS t = Some (S.NEW_STATUS s) -> when_matched t s = t.
Proof.
  intros Hst. unfold Reducer.when_matched, matched_condition.
  rewrite Hst. simpl. rewrite String.eqb_refl. simpl.
  destruct (OR _ _) as [[|]|]; reflexivity.
Qed.

Lemma when_matched_order_id t s : T.ORDER_ID (when_matched t s) = T.ORDER_ID t.
Proof. unfold Reducer.when_matched. destruct (holds _); reflexivity. Qed.

Lemma merge_row_order_id src t : T.ORDER_ID (merge_row src t) = T.ORDER_ID t.
Proof.
  unfold Reducer.merge_row. destruct (find _ _); [apply when_matched_order_id | reflexivity].
Qed.

Lemma when_matched_idempotent t s : when_matched (when_matched t s) s = when_matched t s.
Proof.
  unfold Reducer.when_matched at 2 3.
  destruct (holds (matched_condition ticks_per_day t s)) eqn:E.
  - apply when_matched_same_status. reflexivity.
  - unfold Reducer.when_matched. rewrite E. reflexivity.
Qed.

Lemma merge_row_idempotent src t : merge_row src (merge_row src t) = merge_row src t.
Proof.
  unfold Reducer.merge_row at 2 3. destruct (find (on t) src) as [s|] eqn:E.
  - unfold Reducer.merge_row.
    replace (find (on (when_matched t s)) src) with (Some s).
    + apply when_matched_idempotent.
    + rewrite <- E. apply find_pointwise. intros x. unfold on.
      rewrite when_matched_order_id. reflexivity.
  - unfold Reducer.merge_row. rewrite E. reflexivity.
Qed.

Lemma merge_row_inserted src s :
  NoDup (map S.ORDER_ID src) -> In s src ->
  merge_row src (insert_values s) = insert_values s.
Proof.
  intros Hnd Hin. unfold Reducer.merge_row.
  rewrite (find_on src (insert_values s) s Hnd Hin eq_refl).
  apply when_matched_same_status. reflexivity.
Qed.

(** After the merge every source row is joined with a target row. *)
Lemma merge_matches_all target src s :
  In s src -> not_matched (merge target src) s = false.
Proof.
  intros Hin. unfold not_matched. apply negb_false_iff, existsb_exists.
  destruct (not_matched target s) eqn:Enm.
  - exists (insert_values s). split; [|apply Z.eqb_refl].
    apply in_or_app. right. apply in_map. apply filter_In. auto.
  - unfold not_matched in Enm. apply negb_false_iff, existsb_exists in Enm.
    destruct Enm as (t & Ht & Hon).
    exists (merge_row src t). split.
    + apply in_or_app. left. apply in_map. exact Ht.
    + unfold on in *. rewrite merge_row_order_id. exact Hon.
Qed.

Lemma merge_idempotent target src :
  NoDup (map S.ORDER_ID src) ->
  merge (merge target src) src = merge target src.
Proof.
  intros Hnd. unfold Reducer.merge at 1.
  replace (filter (not_matched (merge target src)) src) with (@nil S.row).
  - simpl. rewrite app_nil_r. unfold Reducer.merge.
    rewrite map_app, !map_map. f_equal.
    + apply map_ext. intros t. apply merge_row_idempotent.
    + apply map_ext_in. intros s Hs. apply filter_In in Hs as [Hs _].
      apply merge_row_inserted; assumption.
  - symmetry. apply filter_nil_iff. intros s Hs. apply merge_matches_all, Hs.
Qed.

(** A source with the same rows in another order merges alike. *)
Lemma find_on_same_rows src src' t :
  NoDup (map S.ORDER_ID src) -> NoDup (map S.ORDER_ID src') ->
  (forall s, In s src <-> In s src') ->
  find (on t) src' = find (on t) src.
Proof.
  intros Hnd Hnd' Hsame.
  destruct (find (on t) src) as [s|] eqn:E.
  - apply find_some in E as [Hin Hon]. unfold on in Hon. apply Z.eqb_eq in Hon.
    apply find_on; [assumption | apply Hsame, Hin | exact Hon].
  - destruct (find (on t) src') as [s'|] eqn:E'; [|reflexivity].
    apply find_some in E' as [Hin Hon].
    apply Hsame in Hin. pose proof (find_none _ _ E _ Hin) as Hn.
    simpl in Hn. congruence.
Qed.

Lemma merge_idempotent_same_rows target src src' :
  NoDup (map S.ORDER_ID src) -> NoDup (map S.ORDER_ID src') ->
  (forall s, In s src <-> In s src') ->
  merge (merge target src) src' = merge target src.
Proof.
  intros Hnd Hnd' Hsame.
  rewrite <- (merge_idempotent target src Hnd) at 2.
  unfold Reducer.merge at 1 3.
  replace (filter (not_matched (merge target src)) src') with (@nil S.row);
    [replace (filter (not_matched (merge target src)) src) with (@nil S.row)|].
  - f_equal. apply map_ext. intros t. unfold Reducer.merge_row.
    rewrite (find_on_same_rows src src' t Hnd Hnd' Hsame). reflexivity.
  - symmetry. apply filter_nil_iff. intros s Hs. apply merge_matches_all, Hs.
  - symmetry. apply filter_nil_iff. intros s Hs. apply merge_matches_all, Hsame, Hs.
Qed.

(** The [WHEN MATCHED] condition is TRUE exactly when both guards pass. *)
Lemma matched_condition_holds (t : T.row) (s : S.row) :
  holds (matched_condition ticks_per_day t s) = true
  <-> strictly_newer ticks_per_day s t /\ status_differs s t.
Proof.
  unfold matched_condition, strictly_newer, status_differs.
  destruct (T.LAST_UPDATE_TS t) as [d|], (T.CURRENT_STATUS t) as [c|]; simpl.
  - destruct (Z.ltb_spec (to_timestamp ticks_per_day d) (S.LAST_EVENT_TS s)),
             (String.eqb_spec c (S.NEW_STATUS s)); simpl;
      (split; [intros E | intros [H1 H2]]); try discriminate E;
      try (exfalso; lia); try (exfalso; congruence); try reflexivity.
    split; [assumption | congruence].
  - destruct (Z.ltb_spec (to_timestamp ticks_per_day d) (S.LAST_EVENT_TS s)); simpl;
      (split; [intros E | intros [H1 H2]]); try discriminate E;
      try (exfalso; lia); try reflexivity.
    split; [assumption | discriminate].
  - destruct (String.eqb_spec c (S.NEW_STATUS s)); simpl;
      (split; [intros E | intros [H1 H2]]); try discriminate E;
      try (exfalso; congruence); try reflexivity.
    split; [exact I | congruence].
  - split; [|reflexivity]. intros _. split; [exact I | discriminate].
Qed.

Lemma when_matched_accepts t s :
  strictly_newer ticks_per_day s t -> status_differs s t ->
  when_matched t s = update_set t s.
Proof.
  intros H1 H2. unfold Reducer.when_matched.
  rewrite (proj2 (matched_condition_holds t s) (conj H1 H2)). reflexivity.
Qed.

Lemma when_matched_rejects t s :
  ~ (strictly_newer ticks_per_day s t /\ status_differs s t) ->
  when_matched t s = t.
Proof.
  intros Hn. unfold Reducer.when_matched.
  destruct (holds (matched_condition ticks_per_day t s)) eqn:E; [|reflexivity].
  apply matched_condition_holds in E. contradiction.
Qed.

(** *** The row of one order across a merge *)

Lemma lookup_merge_matched target src o t :
  lookup_row target o = Some t ->
  lookup_row (merge target src) o = Some (merge_row src t).
Proof.
  unfold lookup_row, Reducer.merge. intros Hl.
  rewrite find_app_split, find_map_same.
  - rewrite Hl. reflexivity.
  - intros x. rewrite merge_row_order_id. reflexivity.
Qed.

Lemma lookup_inserts target o : forall src,
  lookup_row target o = None ->
  find (fun t => T.ORDER_ID t =? o) (map insert_values (filter (not_matched target) src))
  = option_map insert_values (find (fun s => S.ORDER_ID s =? o) src).
Proof.
  intros src Hl. induction src as [|s src IH]; simpl; [reflexivity|].
  destruct (S.ORDER_ID s =? o) eqn:Eo.
  - apply Z.eqb_eq in Eo.
    assert (Hnm : not_matched target s = true).
    { unfold not_matched. apply negb_true_iff.
      destruct (existsb (fun t => on t s) target) eqn:Ex; [|reflexivity].
      apply existsb_exists in Ex as (t & Ht & Hon).
      unfold on in Hon. apply Z.eqb_eq in Hon.
      pose proof (find_none _ _ Hl t Ht) as Hn. simpl in Hn.
      apply Z.eqb_neq in Hn. congruence. }
    rewrite Hnm. simpl. apply Z.eqb_eq in Eo. rewrite Eo. reflexivity.
  - destruct (not_matched target s); [simpl; rewrite Eo|]; exact IH.
Qed.

Lemma lookup_merge_not_matched target src o :
  lookup_row target o = None ->
  lookup_row (merge target src) o
  = option_map insert_values (find (fun s => S.ORDER_ID s =? o) src).
Proof.
  intros Hl. unfold lookup_row at 1, Reducer.merge.
  rewrite find_app_split, find_map_same.
  - unfold lookup_row in Hl. rewrite Hl. simpl. apply lookup_inserts. exact Hl.
  - intros x. rewrite merge_row_order_id. reflexivity.
Qed.

(** *** Monotonicity of the stored date *)

Lemma date_le_refl a : date_le a a.
Proof. destruct a; simpl; [lia | exact I]. Qed.

Lemma date_le_trans a b c : date_le a b -> date_le b c -> date_le a c.
Proof. destruct a, b, c; simpl; try tauto; lia. Qed.

Hypothesis ticks_positive : 0 < ticks_per_day.

Lemma when_matched_monotone t s :
  date_le (T.LAST_UPDATE_TS t) (T.LAST_UPDATE_TS (when_matched t s)).
Proof.
  unfold Reducer.when_matched.
  destruct (holds (matched_condition ticks_per_day t s)) eqn:E;
    [|apply date_le_refl].
  unfold matched_condition in E. simpl.
  destruct (T.LAST_UPDATE_TS t) as [d|]; simpl; [|exact I].
  simpl in E. unfold to_timestamp in E.
  destruct (d * ticks_per_day <? S.LAST_EVENT_TS s) eqn:Elt.
  - apply Z.ltb_lt in Elt. unfold to_date.
    apply Z.div_le_lower_bound; lia.
  - simpl in E. discriminate E.
Qed.

Lemma merge_row_monotone src t :
  date_le (T.LAST_UPDATE_TS t) (T.LAST_UPDATE_TS (merge_row src t)).
Proof.
  unfold Reducer.merge_row. destruct (find _ _);
    [apply when_matched_monotone | apply date_le_refl].
Qed.

Lemma run_merge_monotone W target o :
  date_le (last_update_of target o)
          (last_update_of (run_merge ticks_per_day W target) o).
Proof.
  unfold last_update_of, run_merge.
  destruct (lookup_row target o) as [t|] eqn:El; [|exact I].
  rewrite (lookup_merge_matched _ _ _ _ El). apply merge_row_monotone.
Qed.

End MergeFacts.

Section ReducerClaims.

Import Sql Reducer Scenario.

(** A second pass that meets the rows of [EVENTS] in the same order as the
    first leaves the table as the first left it. *)
Lemma run_merge_idempotent_same_order :
  forall (ticks_per_day : Z) (W : list EVENTS.row) (target : list T.row),
    run_merge ticks_per_day W (run_merge ticks_per_day W target)
    = run_merge ticks_per_day W target.
Proof.
  intros tpd W target. unfold run_merge.
  apply merge_idempotent, using_source_NoDup.
Qed.

(** The same holds when the second pass meets the rows of the window in
    another order, as long as it selects the same candidates. *)
Lemma run_merge_idempotent_any_order :
  forall (ticks_per_day : Z) (W W' : list EVENTS.row) (target : list T.row),
    Permutation W W' ->
    (forall s, In s (using_source W) -> In s (using_source W')) ->
    run_merge ticks_per_day W' (run_merge ticks_per_day W target)
    = run_merge ticks_per_day W target.
Proof.
  intros tpd W W' target Hperm Hsub. unfold run_merge.
  apply merge_idempotent_same_rows; try apply using_source_NoDup.
  intros s. split; [apply Hsub|].
  intros Hs'.
  destruct (using_source_latest s W' Hs') as (e' & He' & -> & _).
  assert (He : In e' W)
    by (eapply Permutation_in; [apply Permutation_sym|]; eassumption).
  destruct (using_source_covers W e' He) as (s0 & Hs0 & Ho).
  rewrite <- (same_key_same_row S.ORDER_ID (using_source W') s0 (select e')
                (using_source_NoDup W') (Hsub _ Hs0) Hs' Ho).
  exact Hs0.
Qed.

(** C2. Monotonicity: through any sequence of passes over arbitrary windows,
    the [LAST_UPDATE_TS] stored for an order never decreases (a missing row
    or a NULL counting as minus infinity); in particular a row that holds a
    date keeps holding one. *)
Theorem C2_last_update_never_decreases :
  forall (ticks_per_day : Z), 0 < ticks_per_day ->
  forall (windows : list (list EVENTS.row)) (target : list T.row) (o : Z),
    date_le (last_update_of target o)
            (last_update_of (passes ticks_per_day windows target) o).
Proof.
  intros tpd Hpos windows. unfold passes.
  induction windows as [|W windows IH]; intros target o; simpl.
  - apply date_le_refl.
  - eapply date_le_trans; [|apply IH].
    apply run_merge_monotone, Hpos.
Qed.

Lemma C2_last_update_never_decreases_witness :
  0 < seconds_per_day
  /\ date_le (last_update_of [stored_paid] 7)
             (last_update_of
                (passes seconds_per_day
                        [[shipped_next_day]; [paid_again_15; shipped_next_day]]
                        [stored_paid]) 7).
Proof.
  split; [reflexivity|].
  apply (C2_last_update_never_decreases seconds_per_day).
  reflexivity.
Defined.

(** C4. No self-transition: an event whose [NEW_STATUS] is the stored
    [CURRENT_STATUS] leaves the row as it is, [PREVIOUS_STATUS] included,
    however recent its [STATUS_TS]; so does a whole pass in which that event
    is the order's candidate. *)
Theorem C4_same_status_is_no_op :
  forall (ticks_per_day : Z) (t : T.row) (e : EVENTS.row),
    T.CURRENT_STATUS t = Some (EVENTS.NEW_STATUS e) ->
    when_matched ticks_per_day t (select e) = t
    /\ forall (W : list EVENTS.row) (target : list T.row),
         In (select e) (using_source W) ->
         lookup_row target (EVENTS.ORDER_ID e) = Some t ->
         lookup_row (run_merge ticks_per_day W target) (EVENTS.ORDER_ID e) = Some t.
Proof.
  intros tpd t e Hst.
  assert (Hrow : when_matched tpd t (select e) = t)
    by (apply when_matched_same_status; exact Hst).
  split; [exact Hrow|].
  intros W target Hin Hl. unfold run_merge.
  rewrite (lookup_merge_matched tpd _ _ _ _ Hl). f_equal.
  unfold merge_row.
  rewrite (find_on (using_source W) t (select e) (using_source_NoDup W) Hin).
  - exact Hrow.
  - apply find_some in Hl as [_ Ho]. apply Z.eqb_eq in Ho. exact Ho.
Qed.

Lemma C4_same_status_is_no_op_witness :
  T.CURRENT_STATUS paid_day_10 = Some (EVENTS.NEW_STATUS paid_again_15)
  /\ when_matched 1 paid_day_10 (select paid_again_15) = paid_day_10
  /\ lookup_row (run_merge 1 [paid_again_15] [paid_day_10]) 7 = Some paid_day_10.
Proof.
  split; [reflexivity|].
  destruct (C4_same_status_is_no_op 1 paid_day_10 paid_again_15 eq_refl)
    as [Hrow Hpass].
  split; [exact Hrow|].
  apply (Hpass [paid_again_15] [paid_day_10]); [left|]; reflexivity.
Defined.

(** C5 as stated fails on the stored timestamp: [LAST_UPDATE_TS] is a [DATE].
    With [STATUS_TS] in seconds, the row of order 7 (PAID, day 0) and the
    event SHIPPED at second 90000 pass both guards, and the merge stores day
    1, that is second 86400, not the event's [STATUS_TS]. *)
Lemma C5_counterexample :
  In (select shipped_next_day) (using_source [shipped_next_day])
  /\ lookup_row [stored_paid] 7 = Some stored_paid
  /\ strictly_newer seconds_per_day (select shipped_next_day) stored_paid
  /\ status_differs (select shipped_next_day) stored_paid
  /\ lookup_row (run_merge seconds_per_day [shipped_next_day] [stored_paid]) 7
     = Some (T.Row 7 (Some 42) (Some "PAID"%string) (Some "SHIPPED"%string) (Some 1))
  /\ to_timestamp seconds_per_day 1 <> EVENTS.STATUS_TS shipped_next_day.
Proof.
  repeat split; try (vm_compute; reflexivity).
  - left. reflexivity.
  - vm_compute. discriminate.
  - vm_compute. discriminate.
Qed.

(** C5, amended. For the candidate [s] the subquery selects for an order:
    - if the order has a row and [s] is not strictly newer than its
      [LAST_UPDATE_TS], the row is unchanged;
    - if the order has a row, [s] is strictly newer and its status differs
      from the stored [CURRENT_STATUS], the row gets [PREVIOUS_STATUS] := the
      old [CURRENT_STATUS], [CURRENT_STATUS] := [s.NEW_STATUS],
      [CUSTOMER_ID] := [s.CUSTOMER_ID], and [LAST_UPDATE_TS] := the calendar
      date of [s.LAST_EVENT_TS];
    - if the order has no row, one is inserted with [PREVIOUS_STATUS] NULL,
      [CURRENT_STATUS] := [s.NEW_STATUS] and that same date;
    - the stored date, read back as a timestamp, is [s.LAST_EVENT_TS] exactly
      when that is a whole number of days. *)
Theorem C5_conditional_merge :
  forall (ticks_per_day : Z) (W : list EVENTS.row) (target : list T.row) (s : S.row),
    In s (using_source W) ->
    (forall t, lookup_row target (S.ORDER_ID s) = Some t ->
       (~ strictly_newer ticks_per_day s t ->
        lookup_row (run_merge ticks_per_day W target) (S.ORDER_ID s) = Some t)
       /\ (strictly_newer ticks_per_day s t -> status_differs s t ->
           lookup_row (run_merge ticks_per_day W target) (S.ORDER_ID s)
           = Some (T.Row (S.ORDER_ID s)
                         (Some (S.CUSTOMER_ID s))
                         (T.CURRENT_STATUS t)
                         (Some (S.NEW_STATUS s))
                         (Some (to_date ticks_per_day (S.LAST_EVENT_TS s))))))
    /\ (lookup_row target (S.ORDER_ID s) = None ->
        lookup_row (run_merge ticks_per_day W target) (S.ORDER_ID s)
        = Some (T.Row (S.ORDER_ID s)
                      (Some (S.CUSTOMER_ID s))
                      None
                      (Some (S.NEW_STATUS s))
                      (Some (to_date ticks_per_day (S.LAST_EVENT_TS s)))))
    /\ (0 < ticks_per_day ->
        (to_timestamp ticks_per_day (to_date ticks_per_day (S.LAST_EVENT_TS s))
         = S.LAST_EVENT_TS s
         <-> S.LAST_EVENT_TS s mod ticks_per_day = 0)).
Proof.
  intros tpd W target s Hin. split; [|split].
  - intros t Hl.
    assert (Ho : T.ORDER_ID t = S.ORDER_ID s).
    { apply find_some in Hl as [_ Ho]. apply Z.eqb_eq in Ho. exact Ho. }
    assert (Hrow : lookup_row (run_merge tpd W target) (S.ORDER_ID s)
                   = Some (when_matched tpd t s)).
    { unfold run_merge. rewrite (lookup_merge_matched tpd _ _ _ _ Hl).
      unfold merge_row.
      rewrite (find_on _ t s (using_source_NoDup W) Hin Ho). reflexivity. }
    rewrite Hrow. split.
    + intros Hold. rewrite when_matched_rejects; [reflexivity | tauto].
    + intros Hnew Hdiff. rewrite when_matched_accepts by assumption.
      unfold update_set. rewrite Ho. reflexivity.
  - intros Hl. unfold run_merge.
    rewrite (lookup_merge_not_matched tpd _ _ _ Hl).
    rewrite (find_by_order_id _ s (using_source_NoDup W) Hin). reflexivity.
  - intros Hpos. unfold to_timestamp, to_date.
    rewrite (Z.mul_comm _ tpd), <- Z.div_exact by lia.
    split; intros H; symmetry; exact H.
Qed.

Lemma C5_conditional_merge_witness :
  In (select shipped_next_day) (using_source [shipped_next_day])
  /\ lookup_row (run_merge seconds_per_day [shipped_next_day] [stored_paid]) 7
     = Some (T.Row 7 (Some 42) (Some "PAID"%string) (Some "SHIPPED"%string) (Some 1))
  /\ lookup_row (run_merge seconds_per_day [shipped_next_day] [paid_day_10]) 7
     = Some paid_day_10
  /\ lookup_row (run_merge seconds_per_day [shipped_next_day] []) 7
     = Some (T.Row 7 (Some 42) None (Some "SHIPPED"%string) (Some 1)).
Proof.
  assert (Hin : In (select shipped_next_day) (using_source [shipped_next_day]))
    by (left; reflexivity).
  split; [exact Hin|]. split; [|split].
  - apply (proj1 (C5_conditional_merge seconds_per_day [shipped_next_day]
                    [stored_paid] (select shipped_next_day) Hin)
                 stored_paid eq_refl).
    + reflexivity.
    + discriminate.
  - apply (proj1 (C5_conditional_merge seconds_per_day [shipped_next_day]
                    [paid_day_10] (select shipped_next_day) Hin)
                 paid_day_10 eq_refl).
    vm_compute. intros H. discriminate H.
  - apply (proj1 (proj2 (C5_conditional_merge seconds_per_day [shipped_next_day]
                           [] (select shipped_next_day) Hin))).
    reflexivity.
Defined.

(** C3 as stated fails: the three events of order 1, reduced in one pass into
    an empty table, leave [PREVIOUS_STATUS] NULL, not the runner-up PAID; the
    other two columns are as claimed. *)
Lemma C3_counterexample :
  run_merge 1 end_to_end []
  = [T.Row 1 (Some 42) None (Some "SHIPPED"%string) (Some 3)]
  /\ lookup_row (run_merge 1 end_to_end []) 1
     = Some (T.Row 1 (Some 42) None (Some "SHIPPED"%string) (Some 3))
  /\ (None : option string) <> Some (EVENTS.NEW_STATUS paid_2).
Proof. repeat split; try reflexivity. discriminate. Qed.

Lemma strictly_latest_wins W1 e W2 W' :
  (forall x, In x (W1 ++ W2) -> EVENTS.ORDER_ID x = EVENTS.ORDER_ID e ->
             EVENTS.STATUS_TS x < EVENTS.STATUS_TS e) ->
  Permutation (W1 ++ e :: W2) W' ->
  In (select e) (using_source W').
Proof.
  intros Hlt Hperm.
  assert (Hin : In e W').
  { eapply Permutation_in; [exact Hperm|]. apply in_or_app. right. left. reflexivity. }
  apply in_split in Hin as (b & a & ->).
  apply Permutation_app_inv in Hperm.
  apply in_using_source. exists b, e, a. repeat split.
  apply row_number_one. split; intros x Hx Ho.
  - apply Hlt; [|exact Ho].
    eapply Permutation_in; [apply Permutation_sym, Hperm|].
    apply in_or_app. left. exact Hx.
  - apply Z.lt_le_incl. apply Hlt; [|exact Ho].
    eapply Permutation_in; [apply Permutation_sym, Hperm|].
    apply in_or_app. right. exact Hx.
Qed.

(** C3, amended. If [e] is strictly the most recent event of its order in the
    window, and the order has no row yet, then one pass over the window, in
    whatever order its rows are met, leaves for the order the row with
    [CURRENT_STATUS] := [e]'s status, [LAST_UPDATE_TS] := the calendar date of
    [e]'s [STATUS_TS], [CUSTOMER_ID] := [e]'s, and [PREVIOUS_STATUS] NULL:
    the status of the runner-up event is not kept. *)
Theorem C3_single_pass_keeps_latest_only :
  forall (ticks_per_day : Z) (W1 W2 W' : list EVENTS.row) (e : EVENTS.row)
         (target : list T.row),
    (forall x, In x (W1 ++ W2) -> EVENTS.ORDER_ID x = EVENTS.ORDER_ID e ->
               EVENTS.STATUS_TS x < EVENTS.STATUS_TS e) ->
    Permutation (W1 ++ e :: W2) W' ->
    lookup_row target (EVENTS.ORDER_ID e) = None ->
    lookup_row (run_merge ticks_per_day W' target) (EVENTS.ORDER_ID e)
    = Some (T.Row (EVENTS.ORDER_ID e)
                  (Some (EVENTS.CUSTOMER_ID e))
                  None
                  (Some (EVENTS.NEW_STATUS e))
                  (Some (to_date ticks_per_day (EVENTS.STATUS_TS e)))).
Proof.
  intros tpd W1 W2 W' e target Hlt Hperm Hl.
  pose proof (strictly_latest_wins W1 e W2 W' Hlt Hperm) as Hin.
  unfold run_merge.
  rewrite (lookup_merge_not_matched tpd target (using_source W') _ Hl).
  change (EVENTS.ORDER_ID e) with (S.ORDER_ID (select e)) at 1.
  rewrite (find_by_order_id _ (select e) (using_source_NoDup W') Hin).
  reflexivity.
Qed.

Lemma C3_single_pass_keeps_latest_only_witness :
  (forall x, In x ([created_1; paid_2] ++ []) ->
             EVENTS.ORDER_ID x = EVENTS.ORDER_ID shipped_3 ->
             EVENTS.STATUS_TS x < EVENTS.STATUS_TS shipped_3)
  /\ Permutation ([created_1; paid_2] ++ shipped_3 :: []) [shipped_3; created_1; paid_2]
  /\ lookup_row [] (EVENTS.ORDER_ID shipped_3) = None
  /\ lookup_row (run_merge 1 [shipped_3; created_1; paid_2] []) 1
     = Some (T.Row 1 (Some 42) None (Some "SHIPPED"%string) (Some 3)).
Proof.
  assert (Hlt : forall x, In x ([created_1; paid_2] ++ []) ->
                          EVENTS.ORDER_ID x = EVENTS.ORDER_ID shipped_3 ->
                          EVENTS.STATUS_TS x < EVENTS.STATUS_TS shipped_3).
  { intros x [<- | [<- | []]] _; reflexivity. }
  assert (Hperm : Permutation ([created_1; paid_2] ++ shipped_3 :: [])
                              [shipped_3; created_1; paid_2]).
  { apply Permutation_sym.
    apply (Permutation_cons_app [created_1; paid_2] []). apply Permutation_refl. }
  split; [exact Hlt|]. split; [exact Hperm|]. split; [reflexivity|].
  apply (C3_single_pass_keeps_latest_only 1 [created_1; paid_2] []
           [shipped_3; created_1; paid_2] shipped_3 [] Hlt Hperm).
  reflexivity.
Defined.

(** C6 as stated fails: the subquery orders by [STATUS_TS] alone. The two
    events of order 9 tie, and the same window read in the other order hands
    the merge the other event. *)
Lemma C6_counterexample :
  Permutation [tie_a; tie_b] [tie_b; tie_a]
  /\ EVENTS.ORDER_ID tie_a = EVENTS.ORDER_ID tie_b
  /\ EVENTS.STATUS_TS tie_a = EVENTS.STATUS_TS tie_b
  /\ EVENTS.EVENT_ID tie_a <> EVENTS.EVENT_ID tie_b
  /\ using_source [tie_a; tie_b] = [select tie_a]
  /\ using_source [tie_b; tie_a] = [select tie_b]
  /\ select tie_a <> select tie_b
  /\ run_merge 1 [tie_a; tie_b] [] <> run_merge 1 [tie_b; tie_a] [].
Proof.
  repeat split; try reflexivity; try discriminate.
  apply perm_swap.
Qed.

(** C6, amended. The subquery selects exactly one row per order of the
    window, taken from an event that none of its order is more recent than. Read in
    another order, the same window yields for that order a row with the same
    [LAST_EVENT_TS]; it yields the very same row whenever all events of the
    order that bear this maximal [STATUS_TS] agree on the selected columns.
    Nothing else breaks a tie. *)
Theorem C6_winner_up_to_ties :
  forall (W1 W2 : list EVENTS.row) (s1 : S.row),
    Permutation W1 W2 ->
    In s1 (using_source W1) ->
    NoDup (map S.ORDER_ID (using_source W1))
    /\ (forall e, In e W1 ->
                  exists s, In s (using_source W1)
                            /\ S.ORDER_ID s = EVENTS.ORDER_ID e)
    /\ (exists e, In e W1 /\ s1 = select e
                  /\ forall x, In x W1 -> EVENTS.ORDER_ID x = EVENTS.ORDER_ID e ->
                               EVENTS.STATUS_TS x <= EVENTS.STATUS_TS e)
    /\ (exists s2, In s2 (using_source W2)
                   /\ S.ORDER_ID s2 = S.ORDER_ID s1
                   /\ S.LAST_EVENT_TS s2 = S.LAST_EVENT_TS s1)
    /\ ((forall x, In x W1 -> EVENTS.ORDER_ID x = S.ORDER_ID s1 ->
                   EVENTS.STATUS_TS x = S.LAST_EVENT_TS s1 -> select x = s1) ->
        In s1 (using_source W2)).
Proof.
  intros W1 W2 s1 Hperm Hin1.
  split; [apply using_source_NoDup|].
  split; [apply using_source_covers|].
  destruct (using_source_latest s1 W1 Hin1) as (e1 & He1 & -> & Hmax1).
  split; [exists e1; auto|].
  assert (He1' : In e1 W2) by (eapply Permutation_in; eassumption).
  destruct (using_source_covers W2 e1 He1') as (s2 & Hin2 & Ho2).
  destruct (using_source_latest s2 W2 Hin2) as (e2 & He2 & -> & Hmax2).
  simpl in Ho2.
  assert (He2' : In e2 W1)
    by (eapply Permutation_in; [apply Permutation_sym|]; eassumption).
  assert (Hts : EVENTS.STATUS_TS e2 = EVENTS.STATUS_TS e1).
  { apply Z.le_antisymm; [apply Hmax1 | apply Hmax2]; auto. }
  split.
  - exists (select e2). repeat split; assumption.
  - intros Hagree. rewrite <- (Hagree e2 He2' Ho2 Hts). exact Hin2.
Qed.

Lemma C6_winner_up_to_ties_witness :
  Permutation end_to_end [shipped_3; created_1; paid_2]
  /\ In (select shipped_3) (using_source end_to_end)
  /\ (forall x, In x end_to_end ->
                EVENTS.ORDER_ID x = S.ORDER_ID (select shipped_3) ->
                EVENTS.STATUS_TS x = S.LAST_EVENT_TS (select shipped_3) ->
                select x = select shipped_3)
  /\ In (select shipped_3) (using_source [shipped_3; created_1; paid_2]).
Proof.
  assert (Hperm : Permutation end_to_end [shipped_3; created_1; paid_2]).
  { apply Permutation_sym.
    apply (Permutation_cons_app [created_1; paid_2] []). apply Permutation_refl. }
  assert (Hin : In (select shipped_3) (using_source end_to_end))
    by (left; reflexivity).
  assert (Hagree : forall x, In x end_to_end ->
                     EVENTS.ORDER_ID x = S.ORDER_ID (select shipped_3) ->
                     EVENTS.STATUS_TS x = S.LAST_EVENT_TS (select shipped_3) ->
                     select x = select shipped_3).
  { intros x [<- | [<- | [<- | []]]] _ Hts; try discriminate Hts. reflexivity. }
  split; [exact Hperm|]. split; [exact Hin|]. split; [exact Hagree|].
  apply (C6_winner_up_to_ties end_to_end [shipped_3; created_1; paid_2]
           (select shipped_3) Hperm Hin).
  exact Hagree.
Defined.

End ReducerClaims.

(* ================================================================== *)
(** * The built-ins on known values *)

Section KnownValues.

Import Py Partitioner.

(** Published SHA-256 digests: of the empty message and of "abc". *)
Example sha256_empty :
  map Sha256.byte_val (Sha256.digest [])
  = [ 0xe3; 0xb0; 0xc4; 0x42; 0x98; 0xfc; 0x1c; 0x14; 0x9a; 0xfb; 0xf4; 0xc8;
      0x99; 0x6f; 0xb9; 0x24; 0x27; 0xae; 0x41; 0xe4; 0x64; 0x9b; 0x93; 0x4c;
      0xa4; 0x95; 0x99; 0x1b; 0x78; 0x52; 0xb8; 0x55 ].
Proof. vm_compute. reflexivity. Qed.

Example sha256_abc :
  map Sha256.byte_val (Sha256.digest (bytes_of_string "abc"))
  = [ 0xba; 0x78; 0x16; 0xbf; 0x8f; 0x01; 0xcf; 0xea; 0x41; 0x41; 0x40; 0xde;
      0x5d; 0xae; 0x22; 0x23; 0xb0; 0x03; 0x61; 0xa3; 0x96; 0x17; 0x7a; 0x9c;
      0xb4; 0x10; 0xff; 0x61; 0xf2; 0x00; 0x15; 0xad ].
Proof. vm_compute. reflexivity. Qed.

Example sha256_constants :
  length Sha256.K = 64%nat /\ nth 0 Sha256.K 0 = 0x428a2f98
  /\ nth 63 Sha256.K 0 = 0xc67178f2 /\ nth 0 Sha256.H0 0 = 0x6a09e667.
Proof. repeat split. Qed.

(** Strict UTF-8: an overlong form, a surrogate and a truncated sequence are
    refused; Arabic-Indic three followed by an ASCII one is accepted. *)
Example decode_utf8_cases :
  decode_utf8 [xc0; x80] = None
  /\ decode_utf8 [xed; xa0; x80] = None
  /\ decode_utf8 [xc2] = None
  /\ decode_utf8 [xd9; xa3; x31] = Some [0x663; 0x31]
  /\ int_of_str [0x663; 0x31] = Some 31.
Proof. repeat split. Qed.

(** The hash route of [b"customer:123"] and its customer-id route differ. *)
Example customer_123_routes :
  default_partitioner (Some key_customer_123) [] seven_partitions = Some 11
  /\ partition_by_customer_id (Some key_customer_123) [] seven_partitions = Some 14
  /\ default_partitioner (Some key_customer_123) [] [0; 1; 2] = Some 2
  /\ partition_by_customer_id (Some key_customer_123) [] [0; 1; 2] = Some 0.
Proof. repeat split; vm_compute; reflexivity. Qed.

End KnownValues.

(* ================================================================== *)
(** * Further properties of the partitioner *)

Section PartitionerExtras.

Import Sha256 Py Partitioner KeyFacts.

Lemma byte_val_range (b : byte) : 0 <= byte_val b < 256.
Proof.
  destruct b; split; first [discriminate | reflexivity].
Qed.

(** X1. With exactly one available partition every key, present or absent,
    decodable or not, goes to it. *)
Theorem single_partition_takes_all :
  forall (key : option (list byte)) (all : list Z) (p : Z),
    default_partitioner key all [p] = Some p
    /\ partition_by_customer_id key all [p] = Some p.
Proof.
  intros key all p.
  assert (Hd : forall k, default_partitioner k all [p] = Some p).
  { intros k. destruct (default_partitioner_nonempty k all [p]) as (q & Hq & Hin);
      [discriminate|].
    destruct Hin as [<- | []]. exact Hq. }
  split; [apply Hd|].
  unfold partition_by_customer_id. destruct key as [k|]; [|apply Hd].
  destruct (try_block k [p]) as [q| |] eqn:E; try apply Hd.
  apply try_block_returned in E. destruct E as [<- | []]. reflexivity.
Qed.

(** *** Keys in ASCII *)

Lemma decode_utf8_ascii (key : list byte) :
  Forall is_ascii key -> decode_utf8 key = Some (map byte_val key).
Proof.
  induction 1 as [|b key Hb _ IH]; [reflexivity|].
  simpl. unfold is_ascii in Hb.
  replace (byte_val b <? 128) with true by (symmetry; apply Z.ltb_lt; exact Hb).
  rewrite IH. reflexivity.
Qed.

Lemma ascii_table :
  forallb (fun n => let c := Z.of_nat n in
                    Bool.eqb (isdigit c) (ascii_digit c)
                    && (negb (ascii_digit c)
                        || match decimal_value c with
                           | Some d => d =? c - 0x30
                           | None => false
                           end))
          (seq 0 128) = true.
Proof. vm_compute. reflexivity. Qed.

Lemma ascii_table_at (c : Z) :
  0 <= c < 0x80 ->
  isdigit c = ascii_digit c
  /\ (ascii_digit c = true -> decimal_value c = Some (c - 0x30)).
Proof.
  intros Hc. pose proof ascii_table as Ht.
  rewrite forallb_forall in Ht. specialize (Ht (Z.to_nat c)).
  rewrite Z2Nat.id in Ht by lia. cbv zeta in Ht.
  assert (Hin : In (Z.to_nat c) (seq 0 128)) by (apply in_seq; lia).
  apply Ht in Hin. apply andb_true_iff in Hin as [H1 H2].
  split; [apply eqb_prop, H1|].
  intros Hd. rewrite Hd in H2. simpl in H2.
  destruct (decimal_value c) as [d|]; [|discriminate].
  apply Z.eqb_eq in H2. congruence.
Qed.

Lemma digits_of_ascii (key : list byte) :
  Forall is_ascii key ->
  digits_of (map byte_val key) = filter ascii_digit (map byte_val key).
Proof.
  intros Hk. unfold digits_of. apply filter_ext_in. intros c Hc.
  apply in_map_iff in Hc as (b & <- & Hb).
  rewrite Forall_forall in Hk. specialize (Hk b Hb). unfold is_ascii in Hk.
  apply ascii_table_at. pose proof (byte_val_range b). lia.
Qed.

Lemma int_digits_ascii (ds : list Z) : forall acc,
  forallb ascii_digit ds = true ->
  int_digits acc ds = Some (fold_left (fun a c => a * 10 + (c - 0x30)) ds acc).
Proof.
  induction ds as [|c ds IH]; intros acc H; [reflexivity|].
  simpl in H. apply andb_true_iff in H as [Hc Hds]. simpl.
  assert (Hr : 0 <= c < 0x80).
  { unfold ascii_digit, between in Hc. apply andb_true_iff in Hc as [H1 H2].
    apply Z.leb_le in H1, H2. lia. }
  rewrite (proj2 (ascii_table_at c Hr) Hc). apply IH, Hds.
Qed.

Lemma forallb_filter_self {A} (f : A -> bool) (l : list A) :
  forallb f (filter f l) = true.
Proof.
  induction l as [|a l IH]; [reflexivity|]. simpl.
  destruct (f a) eqn:E; [simpl; rewrite E, IH; reflexivity | exact IH].
Qed.

(** X2. A key of ASCII bytes with at least one digit, and no more digits than
    [int] converts, is routed by the number its digits write when read left
    to right, whatever stands between them: to
    [avail[number mod len(avail)]]. *)
Theorem ascii_key_routed_by_its_digits :
  forall (key : list byte) (all avail : list Z),
    Forall is_ascii key ->
    filter ascii_digit (map byte_val key) <> [] ->
    Z.of_nat (length (filter ascii_digit (map byte_val key))) <= int_max_str_digits ->
    avail <> [] ->
    exists p,
      index avail (ascii_decimal (filter ascii_digit (map byte_val key))
                   mod Z.of_nat (length avail)) = Some p
      /\ partition_by_customer_id (Some key) all avail = Some p.
Proof.
  intros key all avail Hascii Hne Hlen Havail.
  set (ds := filter ascii_digit (map byte_val key)) in *.
  destruct (try_block_converts key (map byte_val key) (ascii_decimal ds) avail)
    as (p & Hp & Htry).
  - apply decode_utf8_ascii, Hascii.
  - rewrite digits_of_ascii by assumption. exact Hne.
  - rewrite digits_of_ascii by assumption. fold ds.
    rewrite int_of_str_run by assumption.
    apply int_digits_ascii. apply forallb_filter_self.
  - exact Havail.
  - exists p. split; [exact Hp|].
    unfold partition_by_customer_id. rewrite Htry. reflexivity.
Qed.

Lemma ascii_key_routed_by_its_digits_witness :
  Forall is_ascii (bytes_of_string "order12:customer:34")
  /\ filter ascii_digit (map byte_val (bytes_of_string "order12:customer:34"))
     = [0x31; 0x32; 0x33; 0x34]
  /\ ascii_decimal [0x31; 0x32; 0x33; 0x34] = 1234
  /\ exists p,
       index seven_partitions
             (ascii_decimal
                (filter ascii_digit
                        (map byte_val (bytes_of_string "order12:customer:34")))
              mod Z.of_nat (length seven_partitions)) = Some p
       /\ partition_by_customer_id (Some (bytes_of_string "order12:customer:34"))
                                   [] seven_partitions = Some p.
Proof.
  assert (Hascii : Forall is_ascii (bytes_of_string "order12:customer:34")).
  { repeat constructor. }
  split; [exact Hascii|]. split; [reflexivity|]. split; [reflexivity|].
  apply (ascii_key_routed_by_its_digits
           (bytes_of_string "order12:customer:34") [] seven_partitions Hascii).
  - discriminate.
  - vm_compute. discriminate.
  - discriminate.
Defined.

(** *** Keys that yield a customer id *)

Lemma customer_id_route (key : list byte) (cid : Z) (all avail : list Z) :
  customer_id_of key cid ->
  partition_by_customer_id (Some key) all avail
  = match avail with
    | [] => Some 0
    | _ => index avail (cid mod Z.of_nat (length avail))
    end.
Proof.
  intros (text & Hdec & Hint). unfold partition_by_customer_id.
  destruct avail as [|a rest] eqn:Ea.
  - unfold try_block. rewrite Hdec.
    destruct (digits_of text); [discriminate Hint|]. rewrite Hint. reflexivity.
  - rewrite <- Ea.
    destruct (try_block_converts key text cid avail Hdec) as (p & Hp & ->);
      try assumption.
    + intros E. rewrite E in Hint. discriminate Hint.
    + subst avail. discriminate.
    + symmetry. exact Hp.
Qed.

(** X3. Only the customer id counts: two keys that yield the same customer
    id are routed to the same partition, whatever else they contain. *)
Theorem same_customer_id_same_partition :
  forall (k1 k2 : list byte) (cid : Z) (all1 all2 avail : list Z),
    customer_id_of k1 cid -> customer_id_of k2 cid ->
    partition_by_customer_id (Some k1) all1 avail
    = partition_by_customer_id (Some k2) all2 avail.
Proof.
  intros k1 k2 cid all1 all2 avail H1 H2.
  rewrite (customer_id_route k1 cid all1 avail H1).
  rewrite (customer_id_route k2 cid all2 avail H2). reflexivity.
Qed.

Lemma same_customer_id_same_partition_witness :
  customer_id_of key_customer_123 123
  /\ customer_id_of (bytes_of_string "0123 (retry)") 123
  /\ partition_by_customer_id (Some key_customer_123) [] seven_partitions
     = partition_by_customer_id (Some (bytes_of_string "0123 (retry)")) []
                                seven_partitions.
Proof.
  assert (H1 : customer_id_of key_customer_123 123).
  { eexists. split; [vm_compute; reflexivity | vm_compute; reflexivity]. }
  assert (H2 : customer_id_of (bytes_of_string "0123 (retry)") 123).
  { eexists. split; [vm_compute; reflexivity | vm_compute; reflexivity]. }
  split; [exact H1|]. split; [exact H2|].
  apply (same_customer_id_same_partition _ _ 123 [] [] seven_partitions H1 H2).
Defined.

Lemma index_injective (l : list Z) (i j : Z) :
  NoDup l ->
  0 <= i < Z.of_nat (length l) -> 0 <= j < Z.of_nat (length l) ->
  index l i = index l j -> i = j.
Proof.
  intros Hnd Hi Hj. unfold index.
  replace ((0 <=? i) && (i <? Z.of_nat (length l))) with true
    by (symmetry; apply andb_true_iff; split; [apply Z.leb_le | apply Z.ltb_lt]; lia).
  replace ((0 <=? j) && (j <? Z.of_nat (length l))) with true
    by (symmetry; apply andb_true_iff; split; [apply Z.leb_le | apply Z.ltb_lt]; lia).
  intros E. rewrite NoDup_nth_error in Hnd.
  apply Hnd in E; [|lia]. lia.
Qed.

(** X4. When the available partitions are pairwise distinct, two customer
    ids share a partition exactly when they are congruent modulo the number
    of available partitions; consecutive ids never do, once there are two
    partitions. *)
Theorem customer_ids_share_partition_iff_congruent :
  forall (k1 k2 : list byte) (c1 c2 : Z) (all avail : list Z),
    customer_id_of k1 c1 -> customer_id_of k2 c2 ->
    NoDup avail -> avail <> [] ->
    (partition_by_customer_id (Some k1) all avail
     = partition_by_customer_id (Some k2) all avail
     <-> c1 mod Z.of_nat (length avail) = c2 mod Z.of_nat (length avail))
    /\ (c2 = c1 + 1 -> (2 <= length avail)%nat ->
        partition_by_customer_id (Some k1) all avail
        <> partition_by_customer_id (Some k2) all avail).
Proof.
  intros k1 k2 c1 c2 all avail H1 H2 Hnd Hne.
  rewrite (customer_id_route k1 c1 all avail H1).
  rewrite (customer_id_route k2 c2 all avail H2).
  destruct avail as [|a rest] eqn:Ea; [congruence|]. rewrite <- Ea in *.
  pose proof (length_pos avail Hne) as Hpos.
  assert (Hiff : index avail (c1 mod Z.of_nat (length avail))
                 = index avail (c2 mod Z.of_nat (length avail))
                 <-> c1 mod Z.of_nat (length avail) = c2 mod Z.of_nat (length avail)).
  { split; [|intros ->; reflexivity].
    apply index_injective; try assumption; apply Z.mod_pos_bound; exact Hpos. }
  split; [exact Hiff|].
  intros -> Hlen Heq. apply Hiff in Heq.
  assert (Hn : 2 <= Z.of_nat (length avail)) by lia.
  rewrite <- Zplus_mod_idemp_l in Heq.
  pose proof (Z.mod_pos_bound c1 (Z.of_nat (length avail)) Hpos) as Hb.
  set (n := Z.of_nat (length avail)) in *. set (r := c1 mod n) in *.
  destruct (Z.eq_dec (r + 1) n) as [E | E].
  - rewrite E, Z.mod_same in Heq by lia. lia.
  - rewrite Z.mod_small in Heq by lia. lia.
Qed.

Lemma customer_ids_share_partition_iff_congruent_witness :
  customer_id_of key_customer_123 123
  /\ customer_id_of (bytes_of_string "customer:130") 130
  /\ NoDup seven_partitions /\ seven_partitions <> []
  /\ partition_by_customer_id (Some key_customer_123) [] seven_partitions
     = partition_by_customer_id (Some (bytes_of_string "customer:130")) []
                                seven_partitions.
Proof.
  assert (H1 : customer_id_of key_customer_123 123).
  { eexists. split; [vm_compute; reflexivity | vm_compute; reflexivity]. }
  assert (H2 : customer_id_of (bytes_of_string "customer:130") 130).
  { eexists. split; [vm_compute; reflexivity | vm_compute; reflexivity]. }
  assert (Hnd : NoDup seven_partitions).
  { repeat constructor; simpl; intuition discriminate. }
  assert (Hne : seven_partitions <> []) by discriminate.
  split; [exact H1|]. split; [exact H2|]. split; [exact Hnd|]. split; [exact Hne|].
  apply (proj1 (customer_ids_share_partition_iff_congruent
                  _ _ 123 130 [] seven_partitions H1 H2 Hnd Hne)).
  reflexivity.
Defined.

(** *** Keys that are not UTF-8 *)

Lemma decode_utf8_bytes_possible : forall (n : nat) (key : list byte) (text : list Z),
  (length key <= n)%nat ->
  decode_utf8 key = Some text ->
  Forall (fun b => ~ never_in_utf8 (byte_val b)) key.
Proof.
  unfold never_in_utf8, is_cont, between.
  induction n as [|n IH]; intros key text Hlen Hdec.
  - destruct key; [constructor | simpl in Hlen; lia].
  - destruct key as [|b0 r0]; [constructor|].
    simpl in Hlen. cbn [decode_utf8] in Hdec. cbv zeta in Hdec.
    unfold is_cont, between in Hdec.
    destruct (Z.ltb_spec (byte_val b0) 128) as [H0|H0].
    { destruct (decode_utf8 r0) as [t|] eqn:E; [|discriminate].
      constructor; [lia | eapply (IH r0); [lia | exact E]]. }
    destruct ((194 <=? byte_val b0) && (byte_val b0 <=? 223)) eqn:E2.
    { apply andb_true_iff in E2 as [Ha Hb]. apply Z.leb_le in Ha, Hb.
      destruct r0 as [|b1 r1]; [discriminate|].
      destruct ((128 <=? byte_val b1) && (byte_val b1 <=? 191)) eqn:C1;
        [|discriminate].
      apply andb_true_iff in C1 as [Hc Hd]. apply Z.leb_le in Hc, Hd.
      destruct (decode_utf8 r1) as [t|] eqn:E; [|discriminate].
      simpl in Hlen.
      constructor; [lia|]. constructor; [lia|].
      eapply (IH r1); [lia | exact E]. }
    destruct ((224 <=? byte_val b0) && (byte_val b0 <=? 239)) eqn:E3.
    { apply andb_true_iff in E3 as [Ha Hb]. apply Z.leb_le in Ha, Hb.
      destruct r0 as [|b1 [|b2 r2]]; try discriminate.
      match type of Hdec with
      | (if ?c then _ else _) = _ => destruct c eqn:C1; [|discriminate]
      end.
      apply andb_true_iff in C1 as [C1 C2].
      apply andb_true_iff in C1 as [Hc Hd].
      apply andb_true_iff in C2 as [He Hf].
      apply Z.leb_le in Hd, He, Hf.
      assert (128 <= byte_val b1).
      { destruct (byte_val b0 =? 224); apply Z.leb_le in Hc; lia. }
      assert (byte_val b1 <= 191).
      { destruct (byte_val b0 =? 237); lia. }
      destruct (decode_utf8 r2) as [t|] eqn:E; [|discriminate].
      simpl in Hlen.
      constructor; [lia|]. constructor; [lia|]. constructor; [lia|].
      eapply (IH r2); [lia | exact E]. }
    destruct ((240 <=? byte_val b0) && (byte_val b0 <=? 244)) eqn:E4;
      [|discriminate].
    apply andb_true_iff in E4 as [Ha Hb]. apply Z.leb_le in Ha, Hb.
    destruct r0 as [|b1 [|b2 [|b3 r3]]]; try discriminate.
    match type of Hdec with
    | (if ?c then _ else _) = _ => destruct c eqn:C1; [|discriminate]
    end.
    apply andb_true_iff in C1 as [C1 C3].
    apply andb_true_iff in C1 as [C1 C2].
    apply andb_true_iff in C1 as [Hc Hd].
    apply andb_true_iff in C2 as [He Hf].
    apply andb_true_iff in C3 as [Hg Hh].
    apply Z.leb_le in Hd, He, Hf, Hg, Hh.
    assert (128 <= byte_val b1).
    { destruct (byte_val b0 =? 240); apply Z.leb_le in Hc; lia. }
    assert (byte_val b1 <= 191).
    { destruct (byte_val b0 =? 244); lia. }
    destruct (decode_utf8 r3) as [t|] eqn:E; [|discriminate].
    simpl in Hlen.
    constructor; [lia|]. constructor; [lia|]. constructor; [lia|].
    constructor; [lia|].
    eapply (IH r3); [lia | exact E].
Qed.

(** X5. A key holding a byte that no UTF-8 text contains (0xC0, 0xC1, or
    0xF5 and above) is routed by its hash, digits or not. *)
Theorem non_utf8_key_is_hashed :
  forall (key : list byte) (all avail : list Z),
    Exists (fun b => never_in_utf8 (byte_val b)) key ->
    decode_utf8 key = None
    /\ partition_by_customer_id (Some key) all avail
       = default_partitioner (Some key) all avail.
Proof.
  intros key all avail Hbad.
  assert (Hdec : decode_utf8 key = None).
  { destruct (decode_utf8 key) as [text|] eqn:E; [|reflexivity].
    pose proof (decode_utf8_bytes_possible (length key) key text (le_n _) E) as Hok.
    apply Exists_exists in Hbad as (b & Hb & Hnever).
    rewrite Forall_forall in Hok. exfalso. exact (Hok b Hb Hnever). }
  split; [exact Hdec|].
  unfold partition_by_customer_id.
  destruct (try_block_falls_back key avail (or_introl Hdec)) as [-> | ->];
    reflexivity.
Qed.

Lemma non_utf8_key_is_hashed_witness :
  Exists (fun b => never_in_utf8 (byte_val b)) [xff; x31; x32; x33]
  /\ decode_utf8 [xff; x31; x32; x33] = None
  /\ partition_by_customer_id (Some [xff; x31; x32; x33]) [] seven_partitions
     = default_partitioner (Some [xff; x31; x32; x33]) [] seven_partitions.
Proof.
  assert (Hbad : Exists (fun b => never_in_utf8 (byte_val b)) [xff; x31; x32; x33]).
  { apply Exists_cons_hd. right. right. discriminate. }
  split; [exact Hbad|].
  apply (non_utf8_key_is_hashed [xff; x31; x32; x33] [] seven_partitions Hbad).
Defined.

End PartitionerExtras.

(* ================================================================== *)
(** * Further properties of the reducer *)

Section ReducerExtras.

Import Sql Reducer Database Dashboard Scenario.

Lemma NoDup_append {A} (l1 l2 : list A) :
  NoDup l1 -> NoDup l2 -> (forall a, In a l1 -> ~ In a l2) -> NoDup (l1 ++ l2).
Proof.
  induction l1 as [|a l1 IH]; simpl; intros H1 H2 Hd; [exact H2|].
  inversion H1 as [|? ? Hnotin H1']; subst. constructor.
  - intros Hin. apply in_app_or in Hin as [Hin | Hin]; [contradiction|].
    exact (Hd a (or_introl eq_refl) Hin).
  - apply IH; auto.
Qed.

(** The source rows to insert have pairwise distinct [ORDER_ID]s. *)
Lemma inserted_order_ids_distinct (target : list T.row) (src : list S.row) :
  NoDup (map S.ORDER_ID src) ->
  NoDup (map S.ORDER_ID (filter (not_matched target) src)).
Proof.
  intros Hsrc. induction src as [|s src IH]; simpl; [constructor|].
  simpl in Hsrc. apply NoDup_cons_iff in Hsrc as [Hnotin Hrest].
  destruct (not_matched target s); [|apply IH, Hrest].
  simpl. apply NoDup_cons; [|apply IH, Hrest].
  intros Hin. apply Hnotin. apply in_map_iff in Hin as (x & Hx & Hin).
  apply filter_In in Hin as [Hin _]. rewrite <- Hx. apply in_map, Hin.
Qed.

Lemma order_ids_after_merge tpd (target : list T.row) (src : list S.row) :
  map T.ORDER_ID (merge tpd target src)
  = map T.ORDER_ID target ++ map S.ORDER_ID (filter (not_matched target) src).
Proof.
  unfold merge. rewrite map_app, !map_map. f_equal.
  apply map_ext. intros t. apply merge_row_order_id.
Qed.

Lemma not_matched_fresh (target : list T.row) (s : S.row) :
  not_matched target s = true <-> ~ In (S.ORDER_ID s) (map T.ORDER_ID target).
Proof.
  unfold not_matched. rewrite negb_true_iff. split.
  - intros Hex Hin. apply in_map_iff in Hin as (t & Ht & Hin).
    assert (existsb (fun t => on t s) target = true).
    { apply existsb_exists. exists t. split; [exact Hin|].
      unfold on. apply Z.eqb_eq. exact Ht. }
    congruence.
  - intros Hnot. destruct (existsb (fun t => on t s) target) eqn:E; [|reflexivity].
    apply existsb_exists in E as (t & Hin & Hon). unfold on in Hon.
    apply Z.eqb_eq in Hon. exfalso. apply Hnot. rewrite <- Hon. apply in_map, Hin.
Qed.

Lemma run_merge_keeps_key tpd W target :
  NoDup (map T.ORDER_ID target) ->
  NoDup (map T.ORDER_ID (run_merge tpd W target)).
Proof.
  intros Hnd. unfold run_merge. rewrite order_ids_after_merge.
  apply NoDup_append; [exact Hnd | apply inserted_order_ids_distinct, using_source_NoDup|].
  intros o Ho Hin. apply in_map_iff in Hin as (s & <- & Hs).
  apply filter_In in Hs as [_ Hnm]. apply not_matched_fresh in Hnm. contradiction.
Qed.

(** X6. The primary key holds although the warehouse does not enforce it: if
    no two rows of [ORDER_STATUS] share an [ORDER_ID], no two do after any
    number of passes. *)
Theorem passes_keep_primary_key :
  forall (ticks_per_day : Z) (windows : list (list EVENTS.row)) (target : list T.row),
    NoDup (map T.ORDER_ID target) ->
    NoDup (map T.ORDER_ID (passes ticks_per_day windows target)).
Proof.
  intros tpd windows. unfold passes.
  induction windows as [|W windows IH]; intros target Hnd; simpl; [exact Hnd|].
  apply IH, run_merge_keeps_key, Hnd.
Qed.

Lemma passes_keep_primary_key_witness :
  NoDup (map T.ORDER_ID [stored_paid; order_9_paid])
  /\ NoDup (map T.ORDER_ID
                (passes seconds_per_day [end_to_end; [tie_a; shipped_next_day]]
                        [stored_paid; order_9_paid])).
Proof.
  assert (Hnd : NoDup (map T.ORDER_ID [stored_paid; order_9_paid])).
  { repeat constructor; simpl; intuition discriminate. }
  split; [exact Hnd|].
  apply (passes_keep_primary_key seconds_per_day _ _ Hnd).
Defined.

(** X7. After a pass every order that has an event in [EVENTS] has a row in
    [ORDER_STATUS]. *)
Theorem every_order_with_events_has_a_row :
  forall (ticks_per_day : Z) (W : list EVENTS.row) (target : list T.row)
         (e : EVENTS.row),
    In e W ->
    exists t, lookup_row (run_merge ticks_per_day W target) (EVENTS.ORDER_ID e)
              = Some t.
Proof.
  intros tpd W target e Hin.
  destruct (using_source_covers W e Hin) as (s & Hs & Ho).
  destruct (lookup_row target (EVENTS.ORDER_ID e)) as [t|] eqn:El.
  - eexists. unfold run_merge. apply lookup_merge_matched, El.
  - eexists. unfold run_merge. rewrite (lookup_merge_not_matched tpd _ _ _ El).
    rewrite <- Ho. rewrite (find_by_order_id _ s (using_source_NoDup W) Hs).
    reflexivity.
Qed.

Lemma every_order_with_events_has_a_row_witness :
  In paid_2 end_to_end
  /\ exists t, lookup_row (run_merge seconds_per_day end_to_end [stored_paid])
                          (EVENTS.ORDER_ID paid_2) = Some t.
Proof.
  assert (Hin : In paid_2 end_to_end) by (right; left; reflexivity).
  split; [exact Hin|].
  apply (every_order_with_events_has_a_row seconds_per_day end_to_end
           [stored_paid] paid_2 Hin).
Defined.

Lemma find_none_by_order_id (src : list S.row) (o : Z) :
  ~ In o (map S.ORDER_ID src) -> find (fun s => S.ORDER_ID s =? o) src = None.
Proof.
  intros Hnot. destruct (find _ src) as [s|] eqn:E; [|reflexivity].
  apply find_some in E as [Hin Ho]. apply Z.eqb_eq in Ho.
  exfalso. apply Hnot. rewrite <- Ho. apply in_map, Hin.
Qed.

Lemma source_order_has_event W o :
  In o (map S.ORDER_ID (using_source W)) -> exists e, In e W /\ EVENTS.ORDER_ID e = o.
Proof.
  intros Hin. apply in_map_iff in Hin as (s & <- & Hs).
  destruct (using_source_latest s W Hs) as (e & He & -> & _).
  exists e. split; [exact He | reflexivity].
Qed.

(** X8. A pass touches only the orders that have events: for an order with
    no event in [EVENTS], the row is left exactly as it was, and no row
    appears if there was none. *)
Theorem orders_without_events_untouched :
  forall (ticks_per_day : Z) (W : list EVENTS.row) (target : list T.row) (o : Z),
    (forall e, In e W -> EVENTS.ORDER_ID e <> o) ->
    lookup_row (run_merge ticks_per_day W target) o = lookup_row target o.
Proof.
  intros tpd W target o Hno.
  assert (Hnot : ~ In o (map S.ORDER_ID (using_source W))).
  { intros Hin. apply source_order_has_event in Hin as (e & He & Ho).
    exact (Hno e He Ho). }
  unfold run_merge.
  destruct (lookup_row target o) as [t|] eqn:El.
  - rewrite (lookup_merge_matched tpd _ _ _ _ El). f_equal.
    unfold merge_row.
    replace (find (on t) (using_source W)) with (@None S.row); [reflexivity|].
    symmetry. rewrite <- (find_none_by_order_id (using_source W) o Hnot).
    apply find_pointwise. intros s. unfold on.
    apply find_some in El as [_ Ho]. apply Z.eqb_eq in Ho. rewrite Ho.
    apply Z.eqb_sym.
  - rewrite (lookup_merge_not_matched tpd _ _ _ El).
    rewrite (find_none_by_order_id _ o Hnot). reflexivity.
Qed.

Lemma orders_without_events_untouched_witness :
  (forall e, In e end_to_end -> EVENTS.ORDER_ID e <> 7)
  /\ lookup_row (run_merge seconds_per_day end_to_end [stored_paid]) 7
     = lookup_row [stored_paid] 7.
Proof.
  assert (Hno : forall e, In e end_to_end -> EVENTS.ORDER_ID e <> 7).
  { intros e [<- | [<- | [<- | []]]]; discriminate. }
  split; [exact Hno|].
  apply (orders_without_events_untouched seconds_per_day end_to_end [stored_paid] 7 Hno).
Defined.

(** *** The script: a fresh table, then one merge *)

Lemma run_merge_on_empty tpd W :
  run_merge tpd W [] = map (insert_values tpd) (using_source W).
Proof.
  unfold run_merge, merge. simpl. f_equal.
  apply filter_all. apply forallb_forall. intros s _. reflexivity.
Qed.

Lemma distinct_orders_count W :
  length (using_source W) = length (nodup Z.eq_dec (map EVENTS.ORDER_ID W)).
Proof.
  rewrite <- (length_map S.ORDER_ID (using_source W)).
  apply Permutation_length, NoDup_Permutation.
  - apply using_source_NoDup.
  - apply NoDup_nodup.
  - intros o. rewrite nodup_In. split.
    + intros Hin. apply source_order_has_event in Hin as (e & He & <-).
      apply in_map, He.
    + intros Hin. apply in_map_iff in Hin as (e & <- & He).
      destruct (using_source_covers W e He) as (s & Hs & <-).
      apply in_map, Hs.
Qed.

(** X9. Run as a script, [setup_dwh] then [run_merge] rebuild the table from
    [EVENTS] alone: what was stored before is gone; the row count reported is
    the number of distinct orders in [EVENTS] (the dashboard's
    [unique_orders]); no two rows share an [ORDER_ID]; and every row has
    [PREVIOUS_STATUS] NULL and carries the status, customer and date of an
    event of its order that none is more recent than. *)
Theorem fresh_load_rebuilds_from_events :
  forall (ticks_per_day : Z) (events : list EVENTS.row) (old : list T.row),
    main ticks_per_day events old = main ticks_per_day events []
    /\ snd (main ticks_per_day events old) = unique_orders (load_events events)
    /\ NoDup (map T.ORDER_ID (fst (main ticks_per_day events old)))
    /\ forall t, In t (fst (main ticks_per_day events old)) ->
         exists e, In e events
           /\ t = T.Row (EVENTS.ORDER_ID e) (Some (EVENTS.CUSTOMER_ID e)) None
                        (Some (EVENTS.NEW_STATUS e))
                        (Some (to_date ticks_per_day (EVENTS.STATUS_TS e)))
           /\ forall x, In x events -> EVENTS.ORDER_ID x = EVENTS.ORDER_ID e ->
                        EVENTS.STATUS_TS x <= EVENTS.STATUS_TS e.
Proof.
  intros tpd events old. unfold main, setup_dwh, row_count. simpl.
  split; [reflexivity|]. split; [|split].
  - rewrite run_merge_on_empty, length_map, distinct_orders_count. reflexivity.
  - apply run_merge_keeps_key. constructor.
  - intros t Hin. rewrite run_merge_on_empty in Hin.
    apply in_map_iff in Hin as (s & <- & Hs).
    destruct (using_source_latest s events Hs) as (e & He & -> & Hmax).
    exists e. repeat split; assumption.
Qed.

(** *** Two passes *)

(** X10. A transition is recorded by two passes: if the first pass selects
    [e1] for an order that has no row, and a later pass selects a more recent
    [e2] with another status, the row ends with [PREVIOUS_STATUS] := the
    status of [e1], [CURRENT_STATUS] := the status of [e2], and the customer
    and date of [e2]. *)
Theorem two_passes_record_transition :
  forall (ticks_per_day : Z) (W1 W2 : list EVENTS.row) (e1 e2 : EVENTS.row)
         (target : list T.row),
    0 < ticks_per_day ->
    In (select e1) (using_source W1) ->
    In (select e2) (using_source W2) ->
    EVENTS.ORDER_ID e2 = EVENTS.ORDER_ID e1 ->
    EVENTS.STATUS_TS e1 < EVENTS.STATUS_TS e2 ->
    EVENTS.NEW_STATUS e1 <> EVENTS.NEW_STATUS e2 ->
    lookup_row target (EVENTS.ORDER_ID e1) = None ->
    lookup_row (passes ticks_per_day [W1; W2] target) (EVENTS.ORDER_ID e1)
    = Some (T.Row (EVENTS.ORDER_ID e1)
                  (Some (EVENTS.CUSTOMER_ID e2))
                  (Some (EVENTS.NEW_STATUS e1))
                  (Some (EVENTS.NEW_STATUS e2))
                  (Some (to_date ticks_per_day (EVENTS.STATUS_TS e2)))).
Proof.
  intros tpd W1 W2 e1 e2 target Hpos H1 H2 Ho Hts Hst Hnone.
  unfold passes. simpl.
  set (t1 := T.Row (EVENTS.ORDER_ID e1) (Some (EVENTS.CUSTOMER_ID e1)) None
                   (Some (EVENTS.NEW_STATUS e1))
                   (Some (to_date tpd (EVENTS.STATUS_TS e1)))).
  assert (Hfirst : lookup_row (run_merge tpd W1 target) (EVENTS.ORDER_ID e1) = Some t1).
  { unfold run_merge. rewrite (lookup_merge_not_matched tpd _ _ _ Hnone).
    change (EVENTS.ORDER_ID e1) with (S.ORDER_ID (select e1)) at 1.
    rewrite (find_by_order_id _ (select e1) (using_source_NoDup W1) H1).
    reflexivity. }
  unfold run_merge at 1.
  rewrite (lookup_merge_matched tpd _ _ _ _ Hfirst). f_equal.
  unfold merge_row.
  rewrite (find_on (using_source W2) t1 (select e2) (using_source_NoDup W2) H2)
    by (simpl; congruence).
  rewrite when_matched_accepts.
  - unfold update_set. reflexivity.
  - unfold strictly_newer. cbn [T.LAST_UPDATE_TS t1 S.LAST_EVENT_TS select].
    unfold to_timestamp, to_date. rewrite Z.mul_comm.
    pose proof (Z.mul_div_le (EVENTS.STATUS_TS e1) tpd Hpos). lia.
  - unfold status_differs. simpl. congruence.
Qed.

Lemma two_passes_record_transition_witness :
  0 < 1
  /\ In (select paid_2) (using_source [created_1; paid_2])
  /\ In (select shipped_3) (using_source end_to_end)
  /\ lookup_row (passes 1 [[created_1; paid_2]; end_to_end] []) 1
     = Some (T.Row 1 (Some 42) (Some "PAID"%string) (Some "SHIPPED"%string) (Some 3)).
Proof.
  assert (H1 : In (select paid_2) (using_source [created_1; paid_2]))
    by (left; reflexivity).
  assert (H2 : In (select shipped_3) (using_source end_to_end))
    by (left; reflexivity).
  split; [reflexivity|]. split; [exact H1|]. split; [exact H2|].
  apply (two_passes_record_transition 1 [created_1; paid_2] end_to_end
           paid_2 shipped_3 [] eq_refl H1 H2 eq_refl eq_refl).
  - discriminate.
  - reflexivity.
Defined.

(** *** What every row keeps *)

Lemma when_matched_sound tpd t s : sound_row t -> sound_row (when_matched tpd t s).
Proof.
  intros Ht. unfold when_matched.
  destruct (holds (matched_condition tpd t s)) eqn:E; [|exact Ht].
  apply matched_condition_holds in E as [_ Hdiff].
  unfold sound_row, update_set. simpl. repeat split; try discriminate.
  exact Hdiff.
Qed.

Lemma run_merge_sound tpd W target :
  Forall sound_row target -> Forall sound_row (run_merge tpd W target).
Proof.
  intros Hs. unfold run_merge, merge. apply Forall_app. split.
  - apply Forall_map. eapply Forall_impl; [|exact Hs].
    intros t Ht. unfold merge_row.
    destruct (find _ _); [apply when_matched_sound, Ht | exact Ht].
  - apply Forall_map. apply Forall_forall. intros s _.
    unfold sound_row, insert_values. simpl. repeat split; discriminate.
Qed.

(** X11. Passes keep every row sound: if each row has a current status and a
    date, and a previous status different from the current one, the same is
    true after any number of passes. No pass writes a NULL status or date, and
    none records a transition from a status to itself. *)
Theorem passes_keep_rows_sound :
  forall (ticks_per_day : Z) (windows : list (list EVENTS.row)) (target : list T.row),
    Forall sound_row target ->
    Forall sound_row (passes ticks_per_day windows target).
Proof.
  intros tpd windows. unfold passes.
  induction windows as [|W windows IH]; intros target Hs; simpl; [exact Hs|].
  apply IH, run_merge_sound, Hs.
Qed.

Lemma passes_keep_rows_sound_witness :
  Forall sound_row [stored_paid; paid_day_10]
  /\ Forall sound_row
            (passes seconds_per_day [end_to_end; [tie_a; shipped_next_day]]
                    [stored_paid; paid_day_10]).
Proof.
  assert (Hs : Forall sound_row [stored_paid; paid_day_10]).
  { repeat constructor; discriminate. }
  split; [exact Hs|].
  apply (passes_keep_rows_sound seconds_per_day _ _ Hs).
Defined.

(** *** The order in which the rows of [EVENTS] are met *)

Lemma same_candidates W W' :
  Permutation W W' -> ties_agree W ->
  forall s, In s (using_source W) <-> In s (using_source W').
Proof.
  assert (Hone : forall V V', Permutation V V' -> ties_agree V ->
                   forall s, In s (using_source V) -> In s (using_source V')).
  { intros V V' Hperm Hties s Hs.
    destruct (using_source_latest s V Hs) as (e & He & -> & Hmax).
    assert (He' : In e V') by (eapply Permutation_in; eassumption).
    destruct (using_source_covers V' e He') as (s' & Hs' & Ho).
    destruct (using_source_latest s' V' Hs') as (e' & He2 & -> & Hmax').
    simpl in Ho.
    assert (He2' : In e' V)
      by (eapply Permutation_in; [apply Permutation_sym|]; eassumption).
    assert (Hts : EVENTS.STATUS_TS e' = EVENTS.STATUS_TS e).
    { apply Z.le_antisymm; [apply Hmax | apply Hmax']; auto. }
    rewrite <- (Hties e' e He2' He Ho Hts). exact Hs'. }
  intros Hperm Hties s. split; [apply Hone; assumption|].
  apply Hone; [apply Permutation_sym, Hperm|].
  intros x y Hx Hy. apply Hties; eapply Permutation_in;
    try (apply Permutation_sym; exact Hperm); assumption.
Qed.

Lemma Permutation_filter_same {A} (p : A -> bool) (l l' : list A) :
  Permutation l l' -> Permutation (filter p l) (filter p l').
Proof.
  induction 1 as [| x l l' _ IH | x y l | l l' l'' _ IH1 _ IH2]; simpl.
  - constructor.
  - destruct (p x); [constructor|]; exact IH.
  - destruct (p x), (p y); try apply Permutation_refl. apply perm_swap.
  - eapply Permutation_trans; eassumption.
Qed.

(** X12. The order in which a pass meets the rows of [EVENTS] does not
    matter when tied events agree: if events of one order with the same
    [STATUS_TS] agree on the columns the merge reads, two passes over the same
    rows in different orders leave the same rows, up to the order of the rows
    inserted, and the same row for every order. *)
Theorem row_order_immaterial_without_conflicting_ties :
  forall (ticks_per_day : Z) (W W' : list EVENTS.row) (target : list T.row),
    Permutation W W' ->
    ties_agree W ->
    Permutation (run_merge ticks_per_day W target) (run_merge ticks_per_day W' target)
    /\ forall o, lookup_row (run_merge ticks_per_day W target) o
                 = lookup_row (run_merge ticks_per_day W' target) o.
Proof.
  intros tpd W W' target Hperm Hties.
  pose proof (same_candidates W W' Hperm Hties) as Hsame.
  pose proof (using_source_NoDup W) as Hnd.
  pose proof (using_source_NoDup W') as Hnd'.
  assert (Hrows : map (merge_row tpd (using_source W)) target
                  = map (merge_row tpd (using_source W')) target).
  { apply map_ext. intros t. unfold merge_row.
    rewrite (find_on_same_rows _ _ t Hnd Hnd' Hsame). reflexivity. }
  split.
  - unfold run_merge, merge. rewrite Hrows. apply Permutation_app_head.
    apply Permutation_map, Permutation_filter_same.
    apply NoDup_Permutation; try (eapply NoDup_map_inv; eassumption). exact Hsame.
  - intros o. unfold run_merge.
    destruct (lookup_row target o) as [t|] eqn:El.
    + rewrite !(lookup_merge_matched tpd _ _ _ _ El). f_equal.
      unfold merge_row.
      rewrite (find_on_same_rows _ _ t Hnd Hnd' Hsame). reflexivity.
    + rewrite !(lookup_merge_not_matched tpd _ _ _ El). f_equal.
      destruct (find (fun s => S.ORDER_ID s =? o) (using_source W)) as [s|] eqn:E.
      * apply find_some in E as [Hin Ho]. apply Z.eqb_eq in Ho. subst o.
        symmetry. apply find_by_order_id; [exact Hnd' | apply Hsame, Hin].
      * destruct (find (fun s => S.ORDER_ID s =? o) (using_source W')) as [s'|] eqn:E';
          [|reflexivity].
        apply find_some in E' as [Hin Ho]. apply Hsame in Hin.
        pose proof (find_none _ _ E _ Hin) as Hn. simpl in Hn. congruence.
Qed.

Lemma row_order_immaterial_without_conflicting_ties_witness :
  Permutation end_to_end [shipped_3; created_1; paid_2]
  /\ ties_agree end_to_end
  /\ Permutation (run_merge seconds_per_day end_to_end [stored_paid])
                 (run_merge seconds_per_day [shipped_3; created_1; paid_2] [stored_paid])
  /\ forall o, lookup_row (run_merge seconds_per_day end_to_end [stored_paid]) o
               = lookup_row (run_merge seconds_per_day [shipped_3; created_1; paid_2]
                                       [stored_paid]) o.
Proof.
  assert (Hperm : Permutation end_to_end [shipped_3; created_1; paid_2]).
  { apply Permutation_sym.
    apply (Permutation_cons_app [created_1; paid_2] []). apply Permutation_refl. }
  assert (Hties : ties_agree end_to_end).
  { intros x y [<- | [<- | [<- | []]]] [<- | [<- | [<- | []]]] _ Hts;
      try reflexivity; discriminate Hts. }
  split; [exact Hperm|]. split; [exact Hties|].
  apply (row_order_immaterial_without_conflicting_ties
           seconds_per_day end_to_end [shipped_3; created_1; paid_2]
           [stored_paid] Hperm Hties).
Defined.

(** *** The state after a pass *)

(** X13. After a pass, the row of an order that has events shows the status
    of the event selected for it, unless the row was already there and that
    event is not strictly newer than its date, in which case the row is
    untouched. *)
Theorem candidate_status_unless_stale :
  forall (ticks_per_day : Z) (W : list EVENTS.row) (target : list T.row) (s : S.row),
    In s (using_source W) ->
    exists t', lookup_row (run_merge ticks_per_day W target) (S.ORDER_ID s) = Some t'
      /\ (T.CURRENT_STATUS t' = Some (S.NEW_STATUS s)
          \/ (lookup_row target (S.ORDER_ID s) = Some t'
              /\ ~ strictly_newer ticks_per_day s t')).
Proof.
  intros tpd W target s Hs. unfold run_merge.
  destruct (lookup_row target (S.ORDER_ID s)) as [t|] eqn:El.
  - rewrite (lookup_merge_matched tpd _ _ _ _ El).
    assert (Ho : T.ORDER_ID t = S.ORDER_ID s).
    { apply find_some in El as [_ Ho]. apply Z.eqb_eq in Ho. exact Ho. }
    unfold merge_row. rewrite (find_on _ t s (using_source_NoDup W) Hs Ho).
    eexists. split; [reflexivity|].
    unfold when_matched.
    destruct (holds (matched_condition tpd t s)) eqn:E; [left; reflexivity|].
    destruct (T.CURRENT_STATUS t) as [c|] eqn:Ec.
    + destruct (String.eqb_spec c (S.NEW_STATUS s)) as [-> | Hne];
        [left; reflexivity|].
      right. split; [reflexivity|]. intros Hnew.
      assert (Hh : holds (matched_condition tpd t s) = true).
      { apply matched_condition_holds. split; [exact Hnew|].
        unfold status_differs. rewrite Ec. congruence. }
      congruence.
    + right. split; [reflexivity|]. intros Hnew.
      assert (Hh : holds (matched_condition tpd t s) = true).
      { apply matched_condition_holds. split; [exact Hnew|].
        unfold status_differs. rewrite Ec. discriminate. }
      congruence.
  - rewrite (lookup_merge_not_matched tpd _ _ _ El).
    rewrite (find_by_order_id _ s (using_source_NoDup W) Hs).
    eexists. split; [reflexivity|]. left. reflexivity.
Qed.

Lemma candidate_status_unless_stale_witness :
  In (select shipped_next_day) (using_source [shipped_next_day])
  /\ exists t',
       lookup_row (run_merge seconds_per_day [shipped_next_day] [stored_paid]) 7
       = Some t'
       /\ (T.CURRENT_STATUS t' = Some "SHIPPED"%string
           \/ (lookup_row [stored_paid] 7 = Some t'
               /\ ~ strictly_newer seconds_per_day (select shipped_next_day) t')).
Proof.
  assert (Hs : In (select shipped_next_day) (using_source [shipped_next_day]))
    by (left; reflexivity).
  split; [exact Hs|].
  apply (candidate_status_unless_stale seconds_per_day [shipped_next_day]
           [stored_paid] (select shipped_next_day) Hs).
Defined.

(** *** Counting rows *)

(** X14. A pass deletes nothing and inserts one row for each distinct order
    of [EVENTS] that had none: the row count grows by exactly that number. *)
Theorem row_count_grows_by_new_orders :
  forall (ticks_per_day : Z) (W : list EVENTS.row) (target : list T.row),
    row_count (run_merge ticks_per_day W target)
    = row_count target + Z.of_nat (length (orders_without_row target W)).
Proof.
  intros tpd W target. unfold row_count, run_merge, merge, orders_without_row.
  rewrite length_app, !length_map, Nat2Z.inj_add. f_equal. f_equal.
  rewrite <- (length_map S.ORDER_ID).
  assert (Hmap : map S.ORDER_ID (filter (not_matched target) (using_source W))
                 = filter (fun o => negb (existsb (fun t => T.ORDER_ID t =? o) target))
                          (map S.ORDER_ID (using_source W))).
  { generalize (using_source W). intros src.
    induction src as [|s src IH]; [reflexivity|]. simpl.
    unfold not_matched at 1, on.
    destruct (negb (existsb (fun t => T.ORDER_ID t =? S.ORDER_ID s) target));
      simpl; rewrite IH; reflexivity. }
  rewrite Hmap. apply Permutation_length, Permutation_filter_same.
  apply NoDup_Permutation; [apply using_source_NoDup | apply NoDup_nodup|].
  intros o. rewrite nodup_In. split.
  - intros Hin. apply source_order_has_event in Hin as (e & He & <-).
    apply in_map, He.
  - intros Hin. apply in_map_iff in Hin as (e & <- & He).
    destruct (using_source_covers W e He) as (s & Hs & <-).
    apply in_map, Hs.
Qed.

(** *** The latest event and the freshest row *)

Lemma max_status_ts_spec (events : list EVENTS.row) (m : Z) :
  max_status_ts events = Some m ->
  (exists e, In e events /\ EVENTS.STATUS_TS e = m)
  /\ forall x, In x events -> EVENTS.STATUS_TS x <= m.
Proof.
  destruct events as [|e rest]; [discriminate|]. simpl. intros [= <-].
  assert (Hgen : forall l a,
             (fold_left Z.max l a = a \/ In (fold_left Z.max l a) l)
             /\ a <= fold_left Z.max l a
             /\ forall y, In y l -> y <= fold_left Z.max l a).
  { induction l as [|h l IH]; intros a; simpl.
    - split; [left; reflexivity|]. split; [lia | intros y []].
    - destruct (IH (Z.max a h)) as (Hin & Hle & Hall).
      split; [|split].
      + destruct Hin as [Heq | Hin]; [|right; right; exact Hin].
        rewrite Heq. destruct (Z.max_spec a h) as [[_ ->] | [_ ->]]; auto.
      + lia.
      + intros y [<- | Hy]; [lia | auto]. }
  destruct (Hgen (map EVENTS.STATUS_TS rest) (EVENTS.STATUS_TS e)) as (Hin & Hle & Hall).
  split.
  - destruct Hin as [Heq | Hin].
    + exists e. split; [left; reflexivity | symmetry; exact Heq].
    + apply in_map_iff in Hin as (x & Hx & Hin).
      exists x. split; [right; exact Hin | exact Hx].
  - intros x [<- | Hx]; [exact Hle|]. apply Hall, in_map, Hx.
Qed.

(** X15. After the script has run, the freshest row of [ORDER_STATUS] bears
    the calendar date of the dashboard's [latest_event]: some row has that
    date and no row has a later one. *)
Theorem fresh_load_latest_date :
  forall (ticks_per_day : Z) (events : list EVENTS.row) (old : list T.row) (m : Z),
    0 < ticks_per_day ->
    latest_event (load_events events) = Some m ->
    (exists t, In t (fst (main ticks_per_day events old))
               /\ T.LAST_UPDATE_TS t = Some (to_date ticks_per_day m))
    /\ forall t, In t (fst (main ticks_per_day events old)) ->
                 date_le (T.LAST_UPDATE_TS t) (Some (to_date ticks_per_day m)).
Proof.
  intros tpd events old m Hpos Hm. simpl in Hm.
  destruct (max_status_ts_spec events m Hm) as ((e & He & Hts) & Hall).
  unfold main, setup_dwh. simpl. rewrite run_merge_on_empty. split.
  - destruct (using_source_covers events e He) as (s & Hs & Ho).
    exists (insert_values tpd s). split; [apply in_map, Hs|].
    destruct (using_source_latest s events Hs) as (w & Hw & -> & Hmax).
    simpl in *. f_equal. f_equal.
    apply Z.le_antisymm; [apply Hall, Hw|].
    rewrite <- Hts. apply Hmax; [exact He | symmetry; exact Ho].
  - intros t Hin. apply in_map_iff in Hin as (s & <- & Hs).
    destruct (using_source_latest s events Hs) as (w & Hw & -> & _).
    simpl. unfold to_date. apply Z.div_le_mono; [exact Hpos | apply Hall, Hw].
Qed.

Lemma fresh_load_latest_date_witness :
  0 < seconds_per_day
  /\ latest_event (load_events [shipped_next_day; created_1; paid_again_15]) = Some 90000
  /\ (exists t, In t (fst (main seconds_per_day
                                [shipped_next_day; created_1; paid_again_15]
                                [stored_paid]))
                /\ T.LAST_UPDATE_TS t = Some (to_date seconds_per_day 90000))
  /\ forall t, In t (fst (main seconds_per_day
                               [shipped_next_day; created_1; paid_again_15]
                               [stored_paid])) ->
               date_le (T.LAST_UPDATE_TS t) (Some (to_date seconds_per_day 90000)).
Proof.
  split; [reflexivity|]. split; [reflexivity|].
  apply (fresh_load_latest_date seconds_per_day
           [shipped_next_day; created_1; paid_again_15] [stored_paid] 90000);
    reflexivity.
Defined.

(** *** Events that arrive late *)

Lemma nothing_wins_behind_newer (late : list EVENTS.row) : forall b,
  (forall x, In x late ->
     exists e, In e b /\ EVENTS.ORDER_ID e = EVENTS.ORDER_ID x
               /\ EVENTS.STATUS_TS x < EVENTS.STATUS_TS e) ->
  winners b late = [].
Proof.
  induction late as [|x late IH]; intros b Hlate; [reflexivity|].
  rewrite winners_cons.
  destruct (row_number b x late =? 1)%nat eqn:Ern.
  - apply Nat.eqb_eq, row_number_one in Ern as [Hb _].
    destruct (Hlate x (or_introl eq_refl)) as (e & He & Ho & Hts).
    specialize (Hb e He Ho). lia.
  - apply IH. intros y Hy.
    destruct (Hlate y (or_intror Hy)) as (e & He & Ho & Hts).
    exists e. split; [apply in_or_app; left; exact He | auto].
Qed.

Lemma winners_ignore_late (late : list EVENTS.row) : forall a b,
  (forall x, In x late ->
     exists e, In e (b ++ a) /\ EVENTS.ORDER_ID e = EVENTS.ORDER_ID x
               /\ EVENTS.STATUS_TS x < EVENTS.STATUS_TS e) ->
  winners b (a ++ late) = winners b a.
Proof.
  induction a as [|e rest IH]; intros b Hlate.
  - simpl. rewrite app_nil_r in Hlate. apply nothing_wins_behind_newer, Hlate.
  - simpl. rewrite !winners_cons.
    assert (Hrest : winners (b ++ [e]) (rest ++ late) = winners (b ++ [e]) rest).
    { apply IH. intros x Hx. destruct (Hlate x Hx) as (w & Hw & Ho & Hts).
      exists w. split; [|auto]. rewrite <- app_assoc. exact Hw. }
    rewrite Hrest.
    assert (Hrn : (row_number b e (rest ++ late) =? 1)%nat
                  = (row_number b e rest =? 1)%nat).
    { apply eq_true_iff_eq. rewrite !Nat.eqb_eq, !row_number_one.
      split; intros [Hb Ha]; (split; [exact Hb|]); intros x Hx Hxo.
      - apply Ha; [apply in_or_app; left; exact Hx | exact Hxo].
      - apply in_app_or in Hx as [Hx | Hx]; [apply Ha; assumption|].
        destruct (Hlate x Hx) as (w & Hw & Ho & Hts).
        assert (EVENTS.STATUS_TS w <= EVENTS.STATUS_TS e).
        { apply in_app_or in Hw as [Hw | [<- | Hw]].
          - apply Z.lt_le_incl, Hb; [exact Hw | congruence].
          - lia.
          - apply Ha; [exact Hw | congruence]. }
        lia. }
    rewrite Hrn. reflexivity.
Qed.

(** X16. Events that arrive late are harmless: appending to [EVENTS] events
    that are each older than an event of the same order already there changes
    nothing in what a pass does. *)
Theorem late_older_events_change_nothing :
  forall (ticks_per_day : Z) (W late : list EVENTS.row) (target : list T.row),
    (forall x, In x late ->
       exists e, In e W /\ EVENTS.ORDER_ID e = EVENTS.ORDER_ID x
                 /\ EVENTS.STATUS_TS x < EVENTS.STATUS_TS e) ->
    run_merge ticks_per_day (W ++ late) target = run_merge ticks_per_day W target.
Proof.
  intros tpd W late target Hlate. unfold run_merge, using_source.
  rewrite (winners_ignore_late late W [] Hlate). reflexivity.
Qed.

Lemma late_older_events_change_nothing_witness :
  (forall x, In x [created_1; paid_2] ->
     exists e, In e [shipped_3; shipped_next_day]
               /\ EVENTS.ORDER_ID e = EVENTS.ORDER_ID x
               /\ EVENTS.STATUS_TS x < EVENTS.STATUS_TS e)
  /\ run_merge seconds_per_day ([shipped_3; shipped_next_day] ++ [created_1; paid_2])
               [stored_paid]
     = run_merge seconds_per_day [shipped_3; shipped_next_day] [stored_paid].
Proof.
  assert (Hlate : forall x, In x [created_1; paid_2] ->
            exists e, In e [shipped_3; shipped_next_day]
                      /\ EVENTS.ORDER_ID e = EVENTS.ORDER_ID x
                      /\ EVENTS.STATUS_TS x < EVENTS.STATUS_TS e).
  { intros x [<- | [<- | []]]; exists shipped_3;
      (split; [left; reflexivity | split; reflexivity]). }
  split; [exact Hlate|].
  apply (late_older_events_change_nothing seconds_per_day
           [shipped_3; shipped_next_day] [created_1; paid_2] [stored_paid] Hlate).
Defined.

End ReducerExtras.

(* ================================================================== *)
(** * Running a pass again over the same rows *)

Section ReducerRerun.

Import Sql Reducer Database Scenario.

(** C1 as stated fails: nothing fixes which of two events of an order with
    the same [STATUS_TS] the subquery selects, so a second pass over the same
    rows may select the other one. Order 9 is PAID: a pass that selects the
    PAID event changes nothing, and a second pass over the same two rows that
    selects the SHIPPED event moves the order to SHIPPED. With [STATUS_TS] in
    seconds the same happens from an empty table: the first pass inserts
    PAID, the second turns it into SHIPPED after PAID. *)
Lemma C1_counterexample :
  Permutation [tie_a; tie_b] [tie_b; tie_a]
  /\ run_merge 1 [tie_a; tie_b] [order_9_paid] = [order_9_paid]
  /\ run_merge 1 [tie_b; tie_a] (run_merge 1 [tie_a; tie_b] [order_9_paid])
     = [T.Row 9 (Some 42) (Some "PAID"%string) (Some "SHIPPED"%string) (Some 5)]
  /\ run_merge 1 [tie_b; tie_a] (run_merge 1 [tie_a; tie_b] [order_9_paid])
     <> run_merge 1 [tie_a; tie_b] [order_9_paid]
  /\ run_merge seconds_per_day [tie_a; tie_b] []
     = [T.Row 9 (Some 42) None (Some "PAID"%string) (Some 0)]
  /\ run_merge seconds_per_day [tie_b; tie_a]
               (run_merge seconds_per_day [tie_a; tie_b] [])
     = [T.Row 9 (Some 42) (Some "PAID"%string) (Some "SHIPPED"%string) (Some 0)]
  /\ run_merge seconds_per_day [tie_b; tie_a]
               (run_merge seconds_per_day [tie_a; tie_b] [])
     <> run_merge seconds_per_day [tie_a; tie_b] [].
Proof.
  split; [apply perm_swap|].
  repeat split; try reflexivity; discriminate.
Qed.

(** C1, amended. The pass is idempotent as long as the second run selects
    the same event for every order as the first:
    - a second pass that meets the rows of [EVENTS] in the same order leaves
      exactly the table the first pass left;
    - so does a second pass that meets them in any other order, provided the
      events of one order that bear the same [STATUS_TS] agree on the columns
      the merge reads, or, more generally, provided every row the subquery
      selected the first time is selected again.
    This holds for every starting table. *)
Theorem C1_rerun_idempotent_with_same_candidates :
  forall (ticks_per_day : Z) (W : list EVENTS.row) (target : list T.row),
    run_merge ticks_per_day W (run_merge ticks_per_day W target)
    = run_merge ticks_per_day W target
    /\ forall (W' : list EVENTS.row),
         Permutation W W' ->
         ties_agree W
         \/ (forall s, In s (using_source W) -> In s (using_source W')) ->
         run_merge ticks_per_day W' (run_merge ticks_per_day W target)
         = run_merge ticks_per_day W target.
Proof.
  intros tpd W target. split; [apply run_merge_idempotent_same_order|].
  intros W' Hperm Hsame.
  apply run_merge_idempotent_any_order; [exact Hperm|].
  destruct Hsame as [Hties | Hsub]; [|exact Hsub].
  intros s. apply (same_candidates W W' Hperm Hties).
Qed.

Lemma C1_rerun_idempotent_with_same_candidates_witness :
  Permutation [tie_a; shipped_next_day; tie_a_twin]
              [tie_a_twin; tie_a; shipped_next_day]
  /\ ties_agree [tie_a; shipped_next_day; tie_a_twin]
  /\ run_merge seconds_per_day [tie_a; shipped_next_day; tie_a_twin] [stored_paid]
     = [T.Row 7 (Some 42) (Some "PAID"%string) (Some "SHIPPED"%string) (Some 1);
        T.Row 9 (Some 42) None (Some "PAID"%string) (Some 0)]
  /\ run_merge seconds_per_day [tie_a_twin; tie_a; shipped_next_day]
               (run_merge seconds_per_day [tie_a; shipped_next_day; tie_a_twin]
                          [stored_paid])
     = run_merge seconds_per_day [tie_a; shipped_next_day; tie_a_twin] [stored_paid].
Proof.
  assert (Hperm : Permutation [tie_a; shipped_next_day; tie_a_twin]
                              [tie_a_twin; tie_a; shipped_next_day]).
  { apply Permutation_sym.
    apply (Permutation_cons_app [tie_a; shipped_next_day] []).
    apply Permutation_refl. }
  assert (Hties : ties_agree [tie_a; shipped_next_day; tie_a_twin]).
  { intros x y [<- | [<- | [<- | []]]] [<- | [<- | [<- | []]]] Ho Hts;
      try reflexivity; try discriminate Ho; discriminate Hts. }
  split; [exact Hperm|]. split; [exact Hties|]. split; [reflexivity|].
  apply (proj2 (C1_rerun_idempotent_with_same_candidates
                  seconds_per_day [tie_a; shipped_next_day; tie_a_twin]
                  [stored_paid])
               [tie_a_twin; tie_a; shipped_next_day] Hperm).
  left. exact Hties.
Defined.

End ReducerRerun.
